(** * server.js: a static-file gateway that supervises and proxies a backend

    Shallow embedding of [src/server.js], lines 1-46 (the program text; the
    lines after it in that file are prose), and of its copy
    [src/unnamed/part_000].

    The program is glue over Node.js, Express and http-proxy-middleware.  The
    embedding follows the API the program is written against: Node's
    EventEmitter and child_process, Express 4.x ([app.use], [app.listen],
    [express.static], i.e. serve-static 1.x over send 0.x, and finalhandler)
    and http-proxy-middleware 2.x over http-proxy 1.18.  Library behaviour
    that is a table or an algorithm of its own (the MIME table, percent
    decoding, HTML error pages, conditional requests) is a field of
    [platform]. *)

From Stdlib Require Import ZArith NArith Ascii String List Bool Lia.
From stdpp Require Import base option list gmap pretty.

Local Open Scope N_scope.

(** * JavaScript values *)
Module JS.

(** A JavaScript string is a sequence of UTF-16 code units. *)
Abbreviation str := (list N).

(** A string literal of the program text (all of them are ASCII). *)
Definition lit (s : string) : str :=
  (fun a => N_of_ascii a) <$> list_ascii_of_string s.

(** The values the program handles.  Numbers are the integral ones: ports
    and exit codes. *)
Inductive value :=
| VUndefined
| VNull
| VNumber (n : Z)
| VString (s : str).

Definition ToBoolean (v : value) : bool :=
  match v with
  | VUndefined | VNull => false
  | VNumber n => negb (n =? 0)%Z
  | VString s => negb (bool_decide (s = []))
  end.

(** [ToString], as a template literal applies it to [${v}]. *)
Definition ToString (v : value) : str :=
  match v with
  | VUndefined => lit "undefined"
  | VNull => lit "null"
  | VNumber n => lit (pretty n)
  | VString s => s
  end.

(** [a || b] *)
Definition or (a b : value) : value := if ToBoolean a then a else b.

(** ECMAScript WhiteSpace and LineTerminator code points: what
    [String.prototype.trim] strips. *)
Definition isWhiteSpace (c : N) : bool :=
  bool_decide (c ∈ [9; 10; 11; 12; 13; 32; 160; 5760; 8232; 8233; 8239; 8287; 12288; 65279])
  || ((8192 <=? c) && (c <=? 8202)).

Fixpoint trimStart (s : str) : str :=
  match s with
  | c :: t => if isWhiteSpace c then trimStart t else s
  | [] => []
  end.

Definition trimEnd (s : str) : str := reverse (trimStart (reverse s)).

(** [s.trim()] *)
Definition trim (s : str) : str := trimEnd (trimStart s).

(** [process.env]: an object whose own properties are strings. *)
Definition env_get (env : gmap (list N) (list N)) (name : str) : value :=
  match env !! name with
  | Some s => VString s
  | None => VUndefined
  end.

End JS.

Import JS.

(** * HTTP messages, the file system and the backend, as the gateway sees them *)
Module Http.

Abbreviation bytes := (list N).

(** An incoming request as Node and [parseurl] present it: the request
    target, in origin form, split at its first [?] into [pathname] and
    [search] ([search] is empty or starts with [?]); header names in lower
    case. *)
Record request := {
  method : str;
  pathname : str;
  search : str;
  headers : list (str * str);
  body : bytes;
}.

(** [req.originalUrl] *)
Definition originalUrl (r : request) : str := pathname r ++ search r.

(** [req.headers[name]] *)
Definition header (name : str) (r : request) : value :=
  match List.find (fun h => bool_decide (h.1 = name)) (headers r) with
  | Some h => VString h.2
  | None => VUndefined
  end.

(** A response, of the gateway or of the backend: status line, the
    Content-Type and Location headers, and the body. *)
Record response := {
  status : Z;
  content_type : option str;
  location : option str;
  payload : bytes;
}.

(** The request http-proxy sends to its target. *)
Record outgoing := {
  o_authority : str;   (* host:port the connection is made to *)
  o_method : str;
  o_path : str;        (* request target: path and query string *)
  o_host : value;      (* the Host header *)
  o_body : bytes;
}.

(** The backend at the moment of a request: it answers, or the connection
    fails with a system error code ([ECONNREFUSED] when nothing listens on
    the port). *)
Inductive backend :=
| Up (reply : outgoing -> response)
| Down (code : str).

(** What [fs.stat] finds at a path below the static root, the path given
    by its segments. *)
Inductive entry :=
| File (content : bytes)
| Dir.

Record world := {
  fs : list str -> option entry;
  upstream : backend;
}.

End Http.

Import Http.

(** * The Node.js process: listeners, effects and the event loop *)
Module Node.

Inductive emitter :=
| Server                  (* the http.Server made by app.listen *)
| Child (pid : nat)       (* a ChildProcess *)
| ChildStdout (pid : nat) (* its stdout stream *)
| ChildStderr (pid : nat) (* its stderr stream *).

Inductive evname := EvListening | EvError | EvRequest | EvData | EvClose.

(** The argument an event is emitted with.  A [Buffer] of child output
    stands for its text, [data.toString()]. *)
Inductive arg :=
| ArgNone
| ArgError (code : str)
| ArgData (text : str)
| ArgClose (code : value)
| ArgRequest (req : request) (w : world).

(** What the process does that the outside can observe, in order. *)
Inductive effect :=
| ConsoleLog (line : str)
| ConsoleError (line : str)
| Listen (port : value)
| Spawn (pid : nat) (file : str) (args : list str)
| Upstream (o : outgoing)
| Respond (r : response)
| Uncaught (code : str)
| Exit (code : Z).

(** What the outside does to the process. *)
Inductive event :=
| Bound                                  (* the listening socket is bound *)
| BindFailed (code : str)                (* listen failed, e.g. EADDRINUSE *)
| Incoming (req : request) (w : world)   (* a request arrived *)
| StdoutData (pid : nat) (text : str)
| StderrData (pid : nat) (text : str)
| Closed (pid : nat) (code : value)      (* code is null after a signal *)
| SpawnFailed (pid : nat) (code : str)   (* e.g. ENOENT *).

#[global] Instance emitter_eq_dec : EqDecision emitter.
Proof. solve_decision. Defined.
#[global] Instance evname_eq_dec : EqDecision evname.
Proof. solve_decision. Defined.

Section Runtime.

(** The program's function values, and what calling one does. *)
Context {closure : Type}.

Record listener := {
  l_on : emitter;
  l_ev : evname;
  l_once : bool;
  l_fn : closure;
}.

Record proc := {
  listeners : list listener;  (* in registration order *)
  children : nat;             (* child processes spawned so far *)
  trace : list effect;
  alive : bool;
}.

(** Code of the process: it runs to its end ([Some]) or throws ([None]). *)
Definition M (A : Type) : Type := proc -> option A * proc.

Definition ret {A} (a : A) : M A := fun p => (Some a, p).

Definition bind {A B} (m : M A) (f : A -> M B) : M B :=
  fun p => match m p with
           | (Some a, p') => f a p'
           | (None, p') => (None, p')
           end.

Definition perform (e : effect) : M unit :=
  fun p => (Some tt, {| listeners := listeners p; children := children p;
                        trace := trace p ++ [e]; alive := alive p |}).

Definition add_listener (l : listener) : M unit :=
  fun p => (Some tt, {| listeners := listeners p ++ [l]; children := children p;
                        trace := trace p; alive := alive p |}).

(** [emitter.on(ev, fn)] and [emitter.once(ev, fn)] *)
Definition on (em : emitter) (ev : evname) (fn : closure) : M unit :=
  add_listener {| l_on := em; l_ev := ev; l_once := false; l_fn := fn |}.

Definition once (em : emitter) (ev : evname) (fn : closure) : M unit :=
  add_listener {| l_on := em; l_ev := ev; l_once := true; l_fn := fn |}.

(** [child_process.spawn(file, args)]: a new child, its handle returned. *)
Definition spawn (file : str) (args : list str) : M nat :=
  fun p => (Some (children p),
            {| listeners := listeners p; children := S (children p);
               trace := trace p ++ [Spawn (children p) file args]; alive := alive p |}).

(** An exception nobody catches: Node prints it and exits with status 1. *)
Definition throw {A} (code : str) : M A :=
  fun p => (None, {| listeners := listeners p; children := children p;
                     trace := trace p ++ [Uncaught code; Exit 1]; alive := false |}).

Definition listens (em : emitter) (ev : evname) (l : listener) : bool :=
  bool_decide (l_on l = em) && bool_decide (l_ev l = ev).

Variable call : closure -> arg -> M unit.

Fixpoint call_all (ls : list listener) (a : arg) : M unit :=
  match ls with
  | [] => ret tt
  | l :: rest => bind (call (l_fn l) a) (fun _ => call_all rest a)
  end.

(** [emitter.emit(ev, a)]: the listeners of the event run in registration
    order, a [once] listener is removed before it runs, and an [error]
    event without a listener is thrown. *)
Definition emit (em : emitter) (ev : evname) (a : arg) : M unit :=
  fun p =>
    match List.filter (listens em ev) (listeners p) with
    | [] =>
        match ev, a with
        | EvError, ArgError code => throw code p
        | _, _ => (Some tt, p)
        end
    | ls =>
        call_all ls a
          {| listeners := List.filter (fun l => negb (listens em ev l && l_once l)) (listeners p);
             children := children p; trace := trace p; alive := alive p |}
    end.

Definition deliver (e : event) : M unit :=
  match e with
  | Bound => emit Server EvListening ArgNone
  | BindFailed code => emit Server EvError (ArgError code)
  | Incoming req w => emit Server EvRequest (ArgRequest req w)
  | StdoutData pid text => emit (ChildStdout pid) EvData (ArgData text)
  | StderrData pid text => emit (ChildStderr pid) EvData (ArgData text)
  | Closed pid code => emit (Child pid) EvClose (ArgClose code)
  | SpawnFailed pid code => emit (Child pid) EvError (ArgError code)
  end.

(** One turn of the event loop; a process that has exited takes none. *)
Definition step (p : proc) (e : event) : proc :=
  if alive p then (deliver e p).2 else p.

Definition run_events (p : proc) (es : list event) : proc := fold_left step es p.

Definition start : proc :=
  {| listeners := []; children := 0%nat; trace := []; alive := true |}.

End Runtime.

Arguments listener : clear implicits.
Arguments proc : clear implicits.
Arguments M : clear implicits.

End Node.

Import Node.

(** * The String methods the libraries use *)
Module Str.

Definition slash : N := 47.
Definition dot : N := 46.
Definition backslash : N := 92.
Definition question : N := 63.
Definition percent : N := 37.
Definition LF : N := 10.

(** [s.startsWith(p)] *)
Fixpoint startsWith (p s : str) : bool :=
  match p, s with
  | [], _ => true
  | a :: p', b :: s' => (a =? b) && startsWith p' s'
  | _ :: _, [] => false
  end.

(** [s.includes(p)] *)
Fixpoint includes (p s : str) : bool :=
  match s with
  | [] => startsWith p []
  | _ :: t => startsWith p s || includes p t
  end.

(** [s.replace(pat, rep)] with a string pattern: the first occurrence. *)
Fixpoint replace (pat rep s : str) : str :=
  match s with
  | [] => if startsWith pat [] then rep else []
  | c :: t => if startsWith pat s then rep ++ drop (length pat) s
              else c :: replace pat rep t
  end.

(** [s.split(sep)] on one code unit. *)
Fixpoint split (sep : N) (s : str) : list str :=
  match s with
  | [] => [[]]
  | c :: t =>
      if c =? sep then [] :: split sep t
      else match split sep t with
           | h :: r => (c :: h) :: r
           | [] => [[c]]
           end
  end.

(** [parts.join(sep)] *)
Fixpoint join (sep : str) (parts : list str) : str :=
  match parts with
  | [] => []
  | [x] => x
  | x :: r => x ++ sep ++ join sep r
  end.

(** [s.replace(/\/+/g, '/')] *)
Fixpoint collapse_slashes (after_slash : bool) (s : str) : str :=
  match s with
  | [] => []
  | c :: t =>
      if c =? slash then
        if after_slash then collapse_slashes true t else c :: collapse_slashes true t
      else c :: collapse_slashes false t
  end.

Definition endsWith_slash (s : str) : bool :=
  match last s with
  | Some c => c =? slash
  | None => false
  end.

(** ASCII case folding, as a regular expression with the [i] flag compares
    an ASCII pattern. *)
Definition lower (c : N) : N := if (65 <=? c) && (c <=? 90) then c + 32 else c.

Fixpoint startsWith_ci (p s : str) : bool :=
  match p, s with
  | [], _ => true
  | a :: p', b :: s' => (lower a =? lower b) && startsWith_ci p' s'
  | _ :: _, [] => false
  end.

End Str.

Import Str.

(** * What the libraries take from tables and algorithms of their own *)
Record platform := {
  (* decodeURIComponent; None when it throws URIError *)
  decodeURIComponent : str -> option str;
  (* the Content-Type send derives from a file path (the mime table) *)
  mime_lookup : list str -> str;
  (* send's answer to a request with precondition or Range headers *)
  send_conditional : request -> list str -> bytes -> response;
  (* the HTML page finalhandler and serve-static write for a status *)
  document : Z -> request -> bytes;
  (* encodeurl *)
  encodeUrl : str -> str;
  (* url.parse(u).path *)
  url_parse_path : str -> str;
}.

(** * Express 4: the middleware stack *)
Module Express.

(** The request as a middleware sees it: [req.url] is [path ++ search]
    with the mount path removed from [path]. *)
Record ereq := {
  raw : request;
  path : str;
  baseUrl : str;
}.

Definition url (e : ereq) : str := path e ++ search (raw e).

Inductive outcome :=
| Handled (es : list effect)   (* the middleware ended the response *)
| Next                         (* it called next() *).

Record layer := {
  mount : str;
  handle : ereq -> world -> outcome;
}.

(** [Layer.match] for [app.use(mount, fn)]: path-to-regexp 0.1 compiles a
    literal mount path such as [/api] to [/^\/api\/?(?=\/|$)/i]; the mount
    path [/] (and [app.use(fn)]) matches every path and removes nothing.
    The result is the matched prefix, which the router removes. *)
Definition layer_match (mount path : str) : option str :=
  if bool_decide (mount = [slash]) then Some []
  else if startsWith_ci mount path then
    let k := length mount in
    match drop k path with
    | [] => Some (take k path)
    | c :: rest =>
        if c =? slash then
          match rest with
          | [] => Some (take (S k) path)
          | d :: _ => if d =? slash then Some (take (S k) path) else Some (take k path)
          end
        else None
    end
  else None.

(** The router's [trim_prefix]: [req.url] loses the matched prefix and
    keeps a leading slash; [req.baseUrl] is the prefix without a trailing
    slash. *)
Definition enter (removed : str) (r : request) : ereq :=
  match removed with
  | [] => {| raw := r; path := pathname r; baseUrl := [] |}
  | _ =>
      let rest := drop (length removed) (pathname r) in
      {| raw := r;
         path := if startsWith [slash] rest then rest else slash :: rest;
         baseUrl := if endsWith_slash removed then take (length removed - 1) removed else removed |}
  end.

(** finalhandler, when the stack is exhausted: 404. *)
Definition finalhandler (P : platform) (r : request) : response :=
  {| status := 404;
     content_type := Some (lit "text/html; charset=utf-8");
     location := None;
     payload := document P 404 r |}.

(** [app.handle]: the layers in the order of their [app.use]. *)
Fixpoint route (P : platform) (stack : list layer) (r : request) (w : world) : list effect :=
  match stack with
  | [] => [Respond (finalhandler P r)]
  | l :: rest =>
      match layer_match (mount l) (pathname r) with
      | Some removed =>
          match handle l (enter removed r) w with
          | Handled es => es
          | Next => route P rest r w
          end
      | None => route P rest r w
      end
  end.

End Express.

Import Express.

(** * express.static(root): serve-static 1.x over send 0.x, default options *)
Module ServeStatic.

(** [decode]: [decodeURIComponent], which leaves a string without [%] as
    it is. *)
Definition decode (P : platform) (p : str) : option str :=
  if bool_decide (percent ∈ p) then decodeURIComponent P p else Some p.

(** [path.normalize] of a relative path, on its segments: empty and [.]
    segments go, [..] removes the segment before it, or stays when there
    is none.  [res] is the result so far, last segment first. *)
Fixpoint normalizeString (segs res : list str) : list str :=
  match segs with
  | [] => reverse res
  | s :: rest =>
      if bool_decide (s = []) || bool_decide (s = [dot]) then normalizeString rest res
      else if bool_decide (s = [dot; dot]) then
        match res with
        | top :: below =>
            if bool_decide (top = [dot; dot]) then normalizeString rest (s :: res)
            else normalizeString rest below
        | [] => normalizeString rest [s]
        end
      else normalizeString rest (s :: res)
  end.

(** [UP_PATH_REGEXP = /(?:^|[\\/])\.\.(?:[\\/]|$)/], on one segment. *)
Fixpoint up_scan (at_boundary : bool) (s : str) : bool :=
  match s with
  | [] => false
  | c :: t =>
      (at_boundary && (c =? dot) &&
         match t with
         | d :: t' => (d =? dot) && match t' with
                                    | [] => true
                                    | e :: _ => e =? backslash
                                    end
         | [] => false
         end)
      || up_scan (c =? backslash) t
  end.

Definition up_path (segs : list str) : bool := existsb (up_scan true) segs.

(** [containsDotFile]: a part longer than one character that starts with a dot. *)
Definition is_dotfile (s : str) : bool :=
  match s with
  | c :: _ :: _ => c =? dot
  | _ => false
  end.

(** The default [dotfiles] policy: a path holding a dotfile is ignored
    when its last part starts with a dot. *)
Definition dotfile_ignored (segs : list str) (trailing : bool) : bool :=
  existsb is_dotfile segs && negb trailing &&
  match last segs with
  | Some s => startsWith [dot] s
  | None => false
  end.

(** [isConditionalGET] or a Range header. *)
Definition conditional (r : request) : bool :=
  existsb (fun h => bool_decide (h.1 ∈ [lit "if-match"; lit "if-unmodified-since";
                                        lit "if-none-match"; lit "if-modified-since";
                                        lit "range"]))
          (headers r).

(** [SendStream.send]: the file with its type; no body for HEAD. *)
Definition send_file (P : platform) (r : request) (file : list str) (content : bytes) : response :=
  if conditional r then send_conditional P r file content
  else {| status := 200;
          content_type := Some (mime_lookup P file);
          location := None;
          payload := if bool_decide (method r = lit "HEAD") then [] else content |}.

Fixpoint collapseLeadingSlashes (s : str) : str :=
  match s with
  | c :: ((d :: _) as t) => if (c =? slash) && (d =? slash) then collapseLeadingSlashes t else s
  | _ => s
  end.

(** The [directory] listener of serve-static: 301 to the path with a slash. *)
Definition redirect (P : platform) (r : request) : response :=
  {| status := 301;
     content_type := Some (lit "text/html; charset=UTF-8");
     location := Some (encodeUrl P (collapseLeadingSlashes (pathname r ++ [slash]) ++ search r));
     payload := document P 301 r |}.

(** The middleware [express.static(root)]; [fs] of the world is the tree
    below [root].  Every failure below status 500 falls through to
    [next()] ([fallthrough] is on). *)
Definition serveStatic (P : platform) (e : ereq) (w : world) : outcome :=
  let r := raw e in
  if negb (bool_decide (method r = lit "GET") || bool_decide (method r = lit "HEAD")) then Next
  else
    let path :=
      if bool_decide (path e = [slash]) && negb (endsWith_slash (pathname r)) then [] else path e in
    match decode P path with
    | None => Next                                   (* 400 *)
    | Some p =>
        if bool_decide (0 ∈ p) then Next              (* 400 *)
        else
          let segs := match p with
                      | [] => []
                      | _ => normalizeString (split slash (dot :: slash :: p)) []
                      end in
          let trailing := endsWith_slash p in
          if up_path segs then Next                   (* 403 *)
          else if dotfile_ignored segs trailing then Next   (* 404 *)
          else if endsWith_slash path then
            (* sendIndex *)
            match fs w (segs ++ [lit "index.html"]) with
            | Some (File content) =>
                Handled [Respond (send_file P r (segs ++ [lit "index.html"]) content)]
            | _ => Next                               (* 404 *)
            end
          else
            (* sendFile *)
            match fs w segs with
            | Some (File content) =>
                if trailing then Next                 (* ENOTDIR: 404 *)
                else Handled [Respond (send_file P r segs content)]
            | Some Dir => Handled [Respond (redirect P r)]
            | None => Next                            (* ENOENT: 404 *)
            end
    end.

End ServeStatic.

(** * createProxyMiddleware(options): http-proxy-middleware 2.x over http-proxy *)
Module HttpProxy.

Record options := {
  target : str;
  changeOrigin : bool;
}.

Fixpoint until_slash (s : str) : str :=
  match s with
  | [] => []
  | c :: t => if c =? slash then [] else c :: until_slash t
  end.

Fixpoint from_slash (s : str) : str :=
  match s with
  | [] => []
  | c :: t => if c =? slash then s else from_slash t
  end.

Definition after_scheme (u : str) : str :=
  if startsWith (lit "http://") u then drop 7 u else u.

(** [url.parse(target).host] and [.path] of an [http://host:port/path] target. *)
Definition url_host (u : str) : str := until_slash (after_scheme u).

Definition url_path (u : str) : str :=
  match from_slash (after_scheme u) with
  | [] => [slash]
  | p => p
  end.

(** The characters [url.parse] keeps as they are in a request target. *)
Definition url_plain_char (c : N) : bool :=
  (33 <=? c) && (c <=? 126) &&
  negb (bool_decide (c ∈ [34; 35; 39; 60; 62; 92; 94; 96; 123; 124; 125])).

(** [url.parse(u).path]: [u] itself for an origin-form target of plain
    characters. *)
Definition parse_path (P : platform) (u : str) : str :=
  if startsWith [slash] u && forallb url_plain_char u then u else url_parse_path P u.

(** http-proxy's [common.urlJoin(targetPath, path)]: the path before the
    first [?] is joined to the target's, runs of slashes collapse, and the
    query is put back. *)
Definition urlJoin (targetPath path : str) : str :=
  match split question path with
  | [] => []
  | first :: queries =>
      let joined := join [slash] (List.filter (fun s => negb (bool_decide (s = []))) [targetPath; first]) in
      let joined := collapse_slashes false joined in
      let joined := replace (lit "http:/") (lit "http://") joined in
      let joined := replace (lit "https:/") (lit "https://") joined in
      join [question] (joined :: queries)
  end.

(** [common.setupOutgoing] *)
Definition setupOutgoing (P : platform) (o : options) (req_url : str) (r : request) : outgoing :=
  {| o_authority := url_host (target o);
     o_method := method r;
     o_path := urlJoin (url_path (target o)) (parse_path P req_url);
     o_host := if changeOrigin o then VString (url_host (target o)) else header (lit "host") r;
     o_body := body r |}.

(** The default error handler: the status for a failed connection. *)
Definition error_status (code : str) : Z :=
  if includes (lit "HPE_INVALID") code then 502%Z
  else if bool_decide (code ∈ [lit "ECONNRESET"; lit "ENOTFOUND"; lit "ECONNREFUSED"; lit "ETIMEDOUT"])
       then 504%Z
       else 500%Z.

Definition error_response (code : str) (r : request) (req_url : str) : response :=
  {| status := error_status code;
     content_type := None;
     location := None;
     payload := lit "Error occurred while trying to proxy: "
                  ++ ToString (header (lit "host") r) ++ req_url |}.

(** The middleware.  Without a path filter every request it is given is
    proxied; it first restores [req.url = req.originalUrl || req.url], so
    the target sees the path with the mount path.  The backend's response
    is relayed as it is; a failed connection is answered by the error
    handler.  [next()] is never called. *)
Definition createProxyMiddleware (P : platform) (o : options) (e : ereq) (w : world) : outcome :=
  let r := raw e in
  let req_url := ToString (JS.or (VString (originalUrl r)) (VString (url e))) in
  let out := setupOutgoing P o req_url r in
  match upstream w with
  | Up reply => Handled [Upstream out; Respond (reply out)]
  | Down code => Handled [Upstream out; Respond (error_response code r req_url)]
  end.

End HttpProxy.

Import ServeStatic HttpProxy.

#[global] Instance M_ret {closure} : MRet (M closure) := @ret closure.
#[global] Instance M_bind {closure} : MBind (M closure) := fun A B f m => @bind closure A B m f.

(** [app.listen(port, cb)] of Express 4 is
    [http.createServer(app).listen(port, cb)]: the application handles
    [request], [cb] is added with [once('listening', cb)], and the bind is
    started. *)
Definition app_listen {closure} (app : closure) (port : value) (cb : closure) : M closure unit :=
  on Server EvRequest app;;
  once Server EvListening cb;;
  perform (Listen port).

(** Writing a middleware's effects to the trace. *)
Fixpoint perform_all {closure} (es : list effect) : M closure unit :=
  match es with
  | [] => mret tt
  | e :: rest => perform e;; perform_all rest
  end.

(** * src/server.js, lines 1-46 *)
Module ServerJs.

(** The function values of the program. *)
Inductive closure :=
| app              (* line 5, with the stack of lines 33-39 *)
| listening_cb     (* lines 42-46 *)
| stdout_cb        (* lines 19-21 *)
| stderr_cb        (* lines 23-25 *)
| close_cb         (* lines 27-29 *).

(** line 8 *)
Definition PORT (env : gmap (list N) (list N)) : value :=
  JS.or (env_get env (lit "PORT")) (VNumber 3000).

(** line 10 *)
Definition PYTHON_PORT : value := VNumber 8081.

(** lines 13-30 *)
Definition startPythonServer : M closure unit :=
  perform (ConsoleLog (lit "Starting Python Gunicorn server..."));;
  pythonServer ← spawn (lit "gunicorn")
                       [lit "app:app"; lit "--bind"; lit "0.0.0.0:" ++ ToString PYTHON_PORT];
  on (ChildStdout pythonServer) EvData stdout_cb;;
  on (ChildStderr pythonServer) EvData stderr_cb;;
  on (Child pythonServer) EvClose close_cb.

(** lines 33-39: the two [app.use], in their order *)
Definition stack (P : platform) : list layer :=
  [ {| mount := lit "/api";
       handle := createProxyMiddleware P
                   {| target := lit "http://localhost:" ++ ToString PYTHON_PORT;
                      changeOrigin := true |} |};
    {| mount := lit "/"; handle := serveStatic P |} ].

(** The bodies of the function values. *)
Definition call (P : platform) (env : gmap (list N) (list N))
    (c : closure) (a : arg) : M closure unit :=
  match c, a with
  | app, ArgRequest req w => perform_all (route P (stack P) req w)
  | listening_cb, _ =>
      perform (ConsoleLog (lit "Node.js wrapper server listening on port " ++ ToString (PORT env)));;
      startPythonServer
  | stdout_cb, ArgData data =>
      perform (ConsoleLog (lit "[Python STDOUT]: " ++ trim data))
  | stderr_cb, ArgData data =>
      perform (ConsoleError (lit "[Python STDERR]: " ++ trim data))
  | close_cb, ArgClose code =>
      perform (ConsoleLog (lit "Python server process exited with code " ++ ToString code))
  | _, _ => mret tt
  end.

(** The module's top level: line 42. *)
Definition main (env : gmap (list N) (list N)) : M closure unit :=
  app_listen app (PORT env) listening_cb.

(** The process once the top level has run. *)
Definition boot (env : gmap (list N) (list N)) : proc closure := (main env start).2.

(** The process after the events [es]. *)
Definition run (P : platform) (env : gmap (list N) (list N)) (es : list event) : proc closure :=
  run_events (call P env) (boot env) es.

End ServerJs.

(** * src/unnamed/part_000, lines 1-46 *)
Module Part000.

(** The function values of the program. *)
Inductive closure :=
| app              (* line 5, with the stack of lines 33-39 *)
| listening_cb     (* lines 42-46 *)
| stdout_cb        (* lines 19-21 *)
| stderr_cb        (* lines 23-25 *)
| close_cb         (* lines 27-29 *).

(** line 8 *)
Definition PORT (env : gmap (list N) (list N)) : value :=
  JS.or (env_get env (lit "PORT")) (VNumber 3000).

(** line 10 *)
Definition PYTHON_PORT : value := VNumber 8081.

(** lines 13-30 *)
Definition startPythonServer : M closure unit :=
  perform (ConsoleLog (lit "Starting Python Gunicorn server..."));;
  pythonServer ← spawn (lit "gunicorn")
                       [lit "app:app"; lit "--bind"; lit "0.0.0.0:" ++ ToString PYTHON_PORT];
  on (ChildStdout pythonServer) EvData stdout_cb;;
  on (ChildStderr pythonServer) EvData stderr_cb;;
  on (Child pythonServer) EvClose close_cb.

(** lines 33-39: the two [app.use], in their order *)
Definition stack (P : platform) : list layer :=
  [ {| mount := lit "/api";
       handle := createProxyMiddleware P
                   {| target := lit "http://localhost:" ++ ToString PYTHON_PORT;
                      changeOrigin := true |} |};
    {| mount := lit "/"; handle := serveStatic P |} ].

(** The bodies of the function values. *)
Definition call (P : platform) (env : gmap (list N) (list N))
    (c : closure) (a : arg) : M closure unit :=
  match c, a with
  | app, ArgRequest req w => perform_all (route P (stack P) req w)
  | listening_cb, _ =>
      perform (ConsoleLog (lit "Node.js wrapper server listening on port " ++ ToString (PORT env)));;
      startPythonServer
  | stdout_cb, ArgData data =>
      perform (ConsoleLog (lit "[Python STDOUT]: " ++ trim data))
  | stderr_cb, ArgData data =>
      perform (ConsoleError (lit "[Python STDERR]: " ++ trim data))
  | close_cb, ArgClose code =>
      perform (ConsoleLog (lit "Python server process exited with code " ++ ToString code))
  | _, _ => mret tt
  end.

(** The module's top level: line 42. *)
Definition main (env : gmap (list N) (list N)) : M closure unit :=
  app_listen app (PORT env) listening_cb.

(** The process once the top level has run. *)
Definition boot (env : gmap (list N) (list N)) : proc closure := (main env start).2.

(** The process after the events [es]. *)
Definition run (P : platform) (env : gmap (list N) (list N)) (es : list event) : proc closure :=
  run_events (call P env) (boot env) es.

End Part000.

(** * Reading a trace *)

(** The command and arguments of every spawn, in order. *)
Definition spawned (t : list effect) : list (str * list str) :=
  omap (fun e => match e with Spawn _ file args => Some (file, args) | _ => None end) t.

(** The port of every [listen]. *)
Definition listened (t : list effect) : list value :=
  omap (fun e => match e with Listen port => Some port | _ => None end) t.

(** The status the process exited with, if it did. *)
Definition exit_status (t : list effect) : option Z :=
  head (omap (fun e => match e with Exit code => Some code | _ => None end) t).

(** Requests and responses are the only effects of the middleware stack. *)
Definition is_http (e : effect) : bool :=
  match e with
  | Upstream _ | Respond _ => true
  | _ => false
  end.

(** The responses written and the requests sent upstream, in order. *)
Definition responses (t : list effect) : list response :=
  omap (fun e => match e with Respond r => Some r | _ => None end) t.

Definition upstreams (t : list effect) : list outgoing :=
  omap (fun e => match e with Upstream o => Some o | _ => None end) t.

(** The events that arrive as an [error] event of an emitter. *)
Definition is_error_event (e : event) : bool :=
  match e with
  | BindFailed _ | SpawnFailed _ _ => true
  | _ => false
  end.

(** The name of a dotfile such as [.env]: a dot, at least one more
    character, not [..], and no slash, backslash, percent sign or NUL. *)
Definition dot_name (s : str) : bool :=
  match s with
  | c :: _ :: _ =>
      (c =? dot) && negb (bool_decide (s = [dot; dot]))
      && forallb (fun x => negb (bool_decide (x ∈ [slash; backslash; percent; 0]))) s
  | _ => false
  end.

(** A chunk of backend output: the stream it arrives on and its text; the
    event it arrives as, and the log entry of lines 19-25 for it. *)
Inductive stream := Out | Err.

Definition chunk_event (pid : nat) (c : stream * str) : event :=
  match c.1 with
  | Out => StdoutData pid c.2
  | Err => StderrData pid c.2
  end.

Definition chunk_entry (c : stream * str) : effect :=
  match c.1 with
  | Out => ConsoleLog (lit "[Python STDOUT]: " ++ trim c.2)
  | Err => ConsoleError (lit "[Python STDERR]: " ++ trim c.2)
  end.

(** The listeners on a child process and its two output streams. *)
Definition observers {closure} (pid : nat) (ls : list (listener closure)) : list (listener closure) :=
  List.filter (fun l => bool_decide (l_on l ∈ [Child pid; ChildStdout pid; ChildStderr pid])) ls.

(** The backend command of line 17. *)
Definition gunicorn : str * list str :=
  (lit "gunicorn", [lit "app:app"; lit "--bind"; lit "0.0.0.0:8081"]).

(** * Paths and request targets *)

(** A path at or below the mount path: the mount path itself, in either
    case of its letters, followed by nothing or by a slash. *)
Definition under_mount (mount path : str) : bool :=
  startsWith_ci mount path &&
  match drop (length mount) path with
  | [] => true
  | c :: _ => c =? slash
  end.


(** A path segment that names a directory entry directly: not empty, no
    slash, backslash, percent sign or NUL, and no dot in front. *)
Definition plain_segment (s : str) : bool :=
  match s with
  | [] => false
  | c :: _ => negb (c =? dot) && forallb (fun x => negb (bool_decide (x ∈ [slash; backslash; percent; 0]))) s
  end.

(** The path [/s1/s2/.../sn] of segments. *)
Definition path_of (segs : list str) : str := flat_map (fun s => slash :: s) segs.

(** * The wording of the specification *)

(** "a path that begins with the prefix /api" *)
Definition begins_with_api (path : str) : bool := startsWith (lit "/api") path.

(** "every standard-output line is re-emitted with a distinguishing
    prefix, preserving line boundaries, trimmed of trailing whitespace":
    the lines of a text, a final line break ending the last one. *)
Definition lines (text : str) : list str :=
  match reverse (split LF text) with
  | [] :: earlier => reverse earlier
  | _ => split LF text
  end.

Definition relay_by_line (prefix text : str) : list str :=
  (fun l => prefix ++ trimEnd l) <$> lines text.

(** "a gateway-error / bad-gateway status (e.g. 502)" *)
Definition gateway_error (st : Z) : bool := ((st =? 502) || (st =? 504))%Z.

(** * Sample data *)
Module Sample.

Definition platform : platform :=
  {| decodeURIComponent := fun _ => None;
     mime_lookup := fun _ => lit "application/octet-stream";
     send_conditional := fun _ _ _ =>
       {| status := 304; content_type := None; location := None; payload := [] |};
     document := fun _ _ => lit "<!DOCTYPE html>";
     encodeUrl := fun s => s;
     url_parse_path := fun s => s |}.

(** A static root that holds [index.html] and [api.html]. *)
Definition tree (segs : list str) : option entry :=
  if bool_decide (segs = []) then Some Dir
  else if bool_decide (segs = [lit "index.html"]) then Some (File (lit "<h1>chat</h1>"))
  else if bool_decide (segs = [lit "api.html"]) then Some (File (lit "<h1>api</h1>"))
  else None.

Definition ok (o : outgoing) : response :=
  {| status := 200; content_type := Some (lit "application/json");
     location := None; payload := lit "{}" |}.

Definition running : world := {| fs := tree; upstream := Up ok |}.

Definition stopped : world := {| fs := tree; upstream := Down (lit "ECONNREFUSED") |}.

Definition get (path query : string) : request :=
  {| method := lit "GET"; pathname := lit path; search := lit query;
     headers := [(lit "host", lit "example.org")]; body := [] |}.

End Sample.

(** * The states of the gateway process *)

(** The listeners after the top level has run, and once the socket is
    bound and the backend spawned. *)
Definition at_boot : list (listener ServerJs.closure) :=
  [ {| l_on := Server; l_ev := EvRequest; l_once := false; l_fn := ServerJs.app |};
    {| l_on := Server; l_ev := EvListening; l_once := true; l_fn := ServerJs.listening_cb |} ].

Definition serving : list (listener ServerJs.closure) :=
  [ {| l_on := Server; l_ev := EvRequest; l_once := false; l_fn := ServerJs.app |};
    {| l_on := ChildStdout 0; l_ev := EvData; l_once := false; l_fn := ServerJs.stdout_cb |};
    {| l_on := ChildStderr 0; l_ev := EvData; l_once := false; l_fn := ServerJs.stderr_cb |};
    {| l_on := Child 0; l_ev := EvClose; l_once := false; l_fn := ServerJs.close_cb |} ].

(** What holds of the process after any events. *)
Definition invariant (env : gmap (list N) (list N)) (p : proc ServerJs.closure) : Prop :=
  listened (trace p) = [ServerJs.PORT env] /\
  spawned (trace p) = repeat gunicorn (children p) /\
  ((alive p = true /\ listeners p = at_boot /\ children p = 0%nat /\ exit_status (trace p) = None) \/
   (alive p = true /\ listeners p = serving /\ children p = 1%nat /\ exit_status (trace p) = None) \/
   (alive p = false /\ (children p <= 1)%nat /\ exit_status (trace p) = Some 1%Z)).

(** The turn that handles the bound socket: lines 43-45 and 14-29. *)
Definition bound_turn (env : gmap (list N) (list N)) : list effect :=
  [ ConsoleLog (lit "Node.js wrapper server listening on port " ++ ToString (ServerJs.PORT env));
    ConsoleLog (lit "Starting Python Gunicorn server...");
    Spawn 0 (lit "gunicorn") [lit "app:app"; lit "--bind"; lit "0.0.0.0:8081"] ].

(** A process with more trace. *)
Definition log_more {closure} (p : proc closure) (es : list effect) : proc closure :=
  {| listeners := listeners p; children := children p; trace := trace p ++ es; alive := alive p |}.

(** * The two copies of the program *)

(** The function value of [part_000] that stands at the same lines. *)
Definition same_fn (c : ServerJs.closure) : Part000.closure :=
  match c with
  | ServerJs.app => Part000.app
  | ServerJs.listening_cb => Part000.listening_cb
  | ServerJs.stdout_cb => Part000.stdout_cb
  | ServerJs.stderr_cb => Part000.stderr_cb
  | ServerJs.close_cb => Part000.close_cb
  end.

Definition same_listener (l : listener ServerJs.closure) : listener Part000.closure :=
  {| l_on := l_on l; l_ev := l_ev l; l_once := l_once l; l_fn := same_fn (l_fn l) |}.

Definition same_proc (p : proc ServerJs.closure) : proc Part000.closure :=
  {| listeners := same_listener <$> listeners p; children := children p;
     trace := trace p; alive := alive p |}.

(** * Proofs *)

Arguments lit : simpl never.
Arguments ToString : simpl never.
Arguments trim : simpl never.
Arguments route : simpl never.

Lemma perform_all_spec {closure} (es : list effect) (p : proc closure) :
  perform_all es p = (Some tt, log_more p es).
Proof.
  revert p. induction es as [|e es IH]; intros [ls ch t al]; simpl.
  - unfold log_more; simpl. by rewrite app_nil_r.
  - unfold mbind, M_bind, bind, perform; simpl. rewrite IH.
    unfold log_more; simpl. by rewrite <- app_assoc.
Qed.

Lemma run_events_snoc {closure} (call : closure -> arg -> M closure unit) p es e :
  run_events call p (es ++ [e]) = step call (run_events call p es) e.
Proof. unfold run_events. by rewrite fold_left_app. Qed.

Lemma step_dead {closure} (call : closure -> arg -> M closure unit) p e :
  alive p = false -> step call p e = p.
Proof. unfold step. by intros ->. Qed.

Lemma run_events_dead {closure} (call : closure -> arg -> M closure unit) p es :
  alive p = false -> run_events call p es = p.
Proof.
  intros Hd. induction es as [|e es IH] using rev_ind; [done|].
  by rewrite run_events_snoc, IH, step_dead.
Qed.

Section Turns.

Variable P : platform.
Variable env : gmap (list N) (list N).

(** Before the socket is bound. *)
Lemma turn_at_boot (p : proc ServerJs.closure) (e : event) :
  alive p = true -> listeners p = at_boot -> children p = 0%nat ->
  step (ServerJs.call P env) p e =
    match e with
    | Bound =>
        {| listeners := serving; children := 1; trace := trace p ++ bound_turn env; alive := true |}
    | BindFailed code | SpawnFailed _ code =>
        {| listeners := at_boot; children := 0; trace := trace p ++ [Uncaught code; Exit 1];
           alive := false |}
    | Incoming r w => log_more p (route P (ServerJs.stack P) r w)
    | _ => p
    end.
Proof.
  destruct p as [ls ch t al]; simpl; intros -> -> ->.
  destruct e; unfold step; simpl; try reflexivity.
  - unfold emit; simpl. unfold mbind, M_bind, bind; simpl.
    by rewrite <- !app_assoc.
  - unfold emit; simpl. unfold bind. by rewrite perform_all_spec.
Qed.

(** Once the socket is bound and the backend spawned. *)
Lemma turn_serving (p : proc ServerJs.closure) (e : event) :
  alive p = true -> listeners p = serving -> children p = 1%nat ->
  step (ServerJs.call P env) p e =
    match e with
    | BindFailed code | SpawnFailed _ code =>
        {| listeners := serving; children := 1; trace := trace p ++ [Uncaught code; Exit 1];
           alive := false |}
    | Incoming r w => log_more p (route P (ServerJs.stack P) r w)
    | StdoutData 0 text => log_more p [ConsoleLog (lit "[Python STDOUT]: " ++ trim text)]
    | StderrData 0 text => log_more p [ConsoleError (lit "[Python STDERR]: " ++ trim text)]
    | Closed 0 code =>
        log_more p [ConsoleLog (lit "Python server process exited with code " ++ ToString code)]
    | _ => p
    end.
Proof.
  destruct p as [ls ch t al]; simpl; intros -> -> ->.
  destruct e as [| | |[|pid]|[|pid]|[|pid]|[|pid]]; unfold step; simpl; try reflexivity.
  unfold emit; simpl. unfold bind. by rewrite perform_all_spec.
Qed.

End Turns.

(** The middleware stack only sends upstream and responds. *)
Lemma serveStatic_outcome (P : platform) (e : ereq) (w : world) :
  serveStatic P e w = Next \/ exists resp, serveStatic P e w = Handled [Respond resp].
Proof.
  unfold serveStatic.
  repeat (match goal with
          | |- context [if ?b then _ else _] => destruct b
          | |- context [match ?x with _ => _ end] => destruct x
          end; eauto).
Qed.

Lemma proxy_outcome (P : platform) (o : options) (e : ereq) (w : world) :
  exists out resp, createProxyMiddleware P o e w = Handled [Upstream out; Respond resp].
Proof. unfold createProxyMiddleware. destruct (upstream w); eauto. Qed.

Lemma route_is_http (P : platform) (r : request) (w : world) :
  forallb is_http (route P (ServerJs.stack P) r w) = true.
Proof.
  unfold route, ServerJs.stack; cbn [mount handle].
  destruct (layer_match (lit "/api") (pathname r)) as [removed|].
  - destruct (proxy_outcome P {| target := lit "http://localhost:" ++ ToString ServerJs.PYTHON_PORT;
                                 changeOrigin := true |} (enter removed r) w) as (out & resp & ->).
    reflexivity.
  - destruct (layer_match (lit "/") (pathname r)) as [removed|]; [|reflexivity].
    destruct (serveStatic_outcome P (enter removed r) w) as [->|[resp ->]]; reflexivity.
Qed.

Lemma spawned_app t1 t2 : spawned (t1 ++ t2) = spawned t1 ++ spawned t2.
Proof. apply omap_app. Qed.

Lemma listened_app t1 t2 : listened (t1 ++ t2) = listened t1 ++ listened t2.
Proof. apply omap_app. Qed.

Lemma http_quiet (es : list effect) :
  forallb is_http es = true ->
  spawned es = [] /\ listened es = [] /\
  omap (fun e => match e with Exit code => Some code | _ => None end) es = [].
Proof.
  induction es as [|e es IH]; [done|]. simpl.
  intros [He Hes]%andb_prop. destruct (IH Hes) as (H1 & H2 & H3).
  unfold spawned, listened in *. destruct e; simpl in *; try done.
Qed.

Lemma exit_status_app t1 t2 :
  exit_status (t1 ++ t2) =
    match exit_status t1 with
    | Some c => Some c
    | None => exit_status t2
    end.
Proof.
  unfold exit_status. rewrite omap_app.
  by destruct (omap _ t1).
Qed.

Lemma boot_spec (env : gmap (list N) (list N)) :
  ServerJs.boot env =
    {| listeners := at_boot; children := 0; trace := [Listen (ServerJs.PORT env)]; alive := true |}.
Proof. reflexivity. Qed.

Lemma invariant_boot (env : gmap (list N) (list N)) : invariant env (ServerJs.boot env).
Proof. rewrite boot_spec. unfold invariant; simpl. auto 10. Qed.

Lemma invariant_http env (p : proc ServerJs.closure) (es : list effect) :
  forallb is_http es = true -> invariant env p -> invariant env (log_more p es).
Proof.
  intros (Hs & Hl & Hx)%http_quiet (Hlis & Hsp & Hshape).
  unfold invariant, log_more; simpl.
  rewrite listened_app, spawned_app, exit_status_app, Hs, Hl, !app_nil_r.
  unfold exit_status at 2 4 6. rewrite Hx. simpl.
  split; [done|]. split; [done|].
  destruct Hshape as [(?&?&?&->)|[(?&?&?&->)|(?&?&->)]]; auto 10.
Qed.

Lemma invariant_step P env (p : proc ServerJs.closure) (e : event) :
  invariant env p -> invariant env (step (ServerJs.call P env) p e).
Proof.
  intros Hinv. pose proof Hinv as (Hlis & Hsp & [(Ha&Hl&Hc&Hx)|[(Ha&Hl&Hc&Hx)|(Ha&Hc&Hx)]]).
  - rewrite (turn_at_boot P env p e Ha Hl Hc).
    destruct e; try done.
    + unfold invariant; simpl.
      rewrite listened_app, spawned_app, exit_status_app, Hlis, Hsp, Hc, Hx. simpl.
      split; [done|]. split; [done|]. right; left. done.
    + unfold invariant; simpl.
      rewrite listened_app, spawned_app, exit_status_app, Hlis, Hsp, Hc, Hx. simpl.
      split; [done|]. split; [done|]. right; right. split; [done|]. split; [lia|done].
    + apply invariant_http; [apply route_is_http|done].
    + unfold invariant; simpl.
      rewrite listened_app, spawned_app, exit_status_app, Hlis, Hsp, Hc, Hx. simpl.
      split; [done|]. split; [done|]. right; right. split; [done|]. split; [lia|done].
  - rewrite (turn_serving P env p e Ha Hl Hc).
    assert (Hq : forall es, (forall x, x ∈ es -> match x with ConsoleLog _ | ConsoleError _ => True | _ => False end) ->
                 invariant env (log_more p es)).
    { intros es Hes. unfold invariant, log_more; simpl.
      rewrite listened_app, spawned_app, exit_status_app, Hlis, Hsp, Hx.
      assert (spawned es = [] /\ listened es = [] /\ exit_status es = None) as (-> & -> & ->).
      { clear -Hes. induction es as [|x es IH]; [done|].
        destruct IH as (H1 & H2 & H3); [intros y Hy; apply Hes; by right|].
        specialize (Hes x (list_elem_of_here _ _)).
        unfold spawned, listened, exit_status in *. destruct x; simpl in *; try done. }
      rewrite !app_nil_r. split; [done|]. split; [done|]. right; left. done. }
    destruct e as [| | |[|pid]|[|pid]|[|pid]|]; try done.
    + unfold invariant; simpl.
      rewrite listened_app, spawned_app, exit_status_app, Hlis, Hsp, Hc, Hx. simpl.
      split; [done|]. split; [done|]. right; right. split; [done|]. split; [lia|done].
    + apply invariant_http; [apply route_is_http|done].
    + apply Hq. by intros x ->%list_elem_of_singleton.
    + apply Hq. by intros x ->%list_elem_of_singleton.
    + apply Hq. by intros x ->%list_elem_of_singleton.
    + unfold invariant; simpl.
      rewrite listened_app, spawned_app, exit_status_app, Hlis, Hsp, Hc, Hx. simpl.
      split; [done|]. split; [done|]. right; right. split; [done|]. split; [lia|done].
  - by rewrite step_dead.
Qed.

Lemma invariant_run P env (es : list event) : invariant env (ServerJs.run P env es).
Proof.
  unfold ServerJs.run.
  induction es as [|e es IH] using rev_ind; [apply invariant_boot|].
  rewrite run_events_snoc. by apply invariant_step.
Qed.

Lemma run_app P env (es1 es2 : list event) :
  ServerJs.run P env (es1 ++ es2) = run_events (ServerJs.call P env) (ServerJs.run P env es1) es2.
Proof. unfold ServerJs.run, run_events. by rewrite fold_left_app. Qed.

Lemma run_snoc P env (es : list event) (e : event) :
  ServerJs.run P env (es ++ [e]) = step (ServerJs.call P env) (ServerJs.run P env es) e.
Proof. apply run_events_snoc. Qed.

(** A turn never loses a child, and what it does to the listeners and the
    children does not depend on the environment. *)
Lemma step_children P env (p : proc ServerJs.closure) (e : event) :
  invariant env p -> (children p <= children (step (ServerJs.call P env) p e))%nat.
Proof.
  intros (_ & _ & [(Ha&Hl&Hc)|[(Ha&Hl&Hc&_)|(Ha&_)]]).
  - lia.
  - rewrite (turn_serving P env p e Ha Hl Hc).
    destruct e as [| | |[|pid]|[|pid]|[|pid]|]; simpl; lia.
  - by rewrite step_dead.
Qed.

Lemma run_children P env (es1 es2 : list event) :
  (children (ServerJs.run P env es1) <= children (ServerJs.run P env (es1 ++ es2)))%nat.
Proof.
  induction es2 as [|e es2 IH] using rev_ind.
  - by rewrite app_nil_r.
  - rewrite app_assoc. unfold ServerJs.run at 2. rewrite run_events_snoc.
    etrans; [apply IH|]. apply step_children, invariant_run.
Qed.

Lemma children_bound P env (es : list event) : (children (ServerJs.run P env es) <= 1)%nat.
Proof.
  destruct (invariant_run P env es) as (_ & _ & [(_&_&->&_)|[(_&_&->&_)|(_&?&_)]]); lia.
Qed.

Lemma unbound_children P env (es : list event) :
  Bound ∉ es -> children (ServerJs.run P env es) = 0%nat.
Proof.
  induction es as [|e es IH] using rev_ind; [done|].
  intros Hno. rewrite not_elem_of_app in Hno. destruct Hno as [Hes He].
  specialize (IH Hes). unfold ServerJs.run in *. rewrite run_events_snoc.
  destruct (invariant_run P env es) as (_ & _ & [(Ha&Hl&Hc&_)|[(Ha&Hl&Hc&_)|(Ha&_)]]);
    unfold ServerJs.run in *.
  - rewrite (turn_at_boot P env _ e Ha Hl Hc).
    destruct e; simpl; try done. exfalso. apply He. by left.
  - congruence.
  - by rewrite step_dead.
Qed.

Lemma unbound_alive_at_boot P env (es : list event) :
  Bound ∉ es -> alive (ServerJs.run P env es) = true ->
  listeners (ServerJs.run P env es) = at_boot /\ children (ServerJs.run P env es) = 0%nat.
Proof.
  intros Hno Ha. pose proof (unbound_children P env es Hno) as Hc.
  destruct (invariant_run P env es) as (_ & _ & [(_&Hl&_)|[(_&_&Hc'&_)|(Ha'&_)]]); [done| |];
    congruence.
Qed.

Lemma run_shape P env1 env2 (es : list event) :
  alive (ServerJs.run P env1 es) = alive (ServerJs.run P env2 es) /\
  listeners (ServerJs.run P env1 es) = listeners (ServerJs.run P env2 es) /\
  children (ServerJs.run P env1 es) = children (ServerJs.run P env2 es).
Proof.
  induction es as [|e es IH] using rev_ind; [done|].
  destruct IH as (Ea & El & Ec).
  pose proof (invariant_run P env1 es) as (_ & _ & H1).
  pose proof (invariant_run P env2 es) as (_ & _ & H2).
  unfold ServerJs.run in *. rewrite !run_events_snoc.
  destruct H1 as [(Ha&Hl&Hc&_)|[(Ha&Hl&Hc&_)|(Ha&_)]].
  - rewrite (turn_at_boot P env1 _ e Ha Hl Hc).
    rewrite (turn_at_boot P env2 _ e); [|congruence..].
    destruct e; simpl; auto.
  - rewrite (turn_serving P env1 _ e Ha Hl Hc).
    rewrite (turn_serving P env2 _ e); [|congruence..].
    destruct e as [| | |[|pid]|[|pid]|[|pid]|]; simpl; auto.
  - rewrite !step_dead; [done|congruence|done].
Qed.

(** ** The port, the backend command and the order of start-up *)

(** C5: the port handed to [app.listen] is the value of the PORT
    environment variable when that is set and not empty, and 3000 when it
    is unset or empty; it is the only port the process ever listens on. *)
Theorem C5_public_port (P : platform) (env : gmap (list N) (list N)) (es : list event) :
  (forall s, env !! lit "PORT" = Some s -> s <> [] -> ServerJs.PORT env = VString s) /\
  (env !! lit "PORT" = None \/ env !! lit "PORT" = Some [] -> ServerJs.PORT env = VNumber 3000) /\
  listened (trace (ServerJs.run P env es)) = [ServerJs.PORT env].
Proof.
  unfold ServerJs.PORT, JS.or, env_get. split; [|split].
  - intros s -> Hs. simpl. by rewrite bool_decide_eq_false_2.
  - by intros [-> | ->].
  - apply invariant_run.
Qed.

Lemma C5_public_port_witness :
  ServerJs.PORT {[ lit "PORT" := lit "8080" ]} = VString (lit "8080") /\
  ServerJs.PORT ∅ = VNumber 3000.
Proof.
  split.
  - apply (C5_public_port Sample.platform {[ lit "PORT" := lit "8080" ]} []).
    + apply lookup_singleton_eq.
    + discriminate.
  - apply (C5_public_port Sample.platform ∅ []). left. apply lookup_empty.
Defined.

(** Once the socket is bound, the backend has been spawned, by the
    command of line 17, and that stays the only spawn. *)
Lemma spawned_after_bound P env (es later : list event) :
  Bound ∉ es -> alive (ServerJs.run P env es) = true ->
  spawned (trace (ServerJs.run P env (es ++ Bound :: later))) = [gunicorn].
Proof.
  intros Hno Ha. destruct (unbound_alive_at_boot P env es Hno Ha) as [Hl Hc].
  assert (Hturn : children (ServerJs.run P env (es ++ [Bound])) = 1%nat).
  { by rewrite run_snoc, (turn_at_boot P env _ Bound Ha Hl Hc). }
  pose proof (invariant_run P env (es ++ Bound :: later)) as (_ & -> & _).
  pose proof (children_bound P env (es ++ Bound :: later)).
  pose proof (run_children P env (es ++ [Bound]) later) as Hmono.
  rewrite <- app_assoc in Hmono. simpl in Hmono. rewrite Hturn in Hmono.
  by replace (children (ServerJs.run P env (es ++ Bound :: later))) with 1%nat by lia.
Qed.

(** C6: the backend is spawned, once the socket is bound, as [gunicorn
    app:app --bind 0.0.0.0:8081]; every spawn of any run is that command
    with those arguments; and two environments that differ only in PORT
    spawn the same commands with the same arguments. *)
Theorem C6_backend_command (P : platform) (env1 env2 : gmap (list N) (list N)) (es : list event) :
  (forall cmd, cmd ∈ spawned (trace (ServerJs.run P env1 es)) ->
     cmd = (lit "gunicorn", [lit "app:app"; lit "--bind"; lit "0.0.0.0:8081"])) /\
  (Bound ∉ es -> alive (ServerJs.run P env1 es) = true ->
     forall later,
       spawned (trace (ServerJs.run P env1 (es ++ Bound :: later))) =
         [(lit "gunicorn", [lit "app:app"; lit "--bind"; lit "0.0.0.0:8081"])] /\
       spawned (trace (ServerJs.run P env2 (es ++ Bound :: later))) =
         [(lit "gunicorn", [lit "app:app"; lit "--bind"; lit "0.0.0.0:8081"])]) /\
  (delete (lit "PORT") env1 = delete (lit "PORT") env2 ->
     spawned (trace (ServerJs.run P env1 es)) = spawned (trace (ServerJs.run P env2 es))).
Proof.
  pose proof (invariant_run P env1 es) as (_ & H1 & _).
  pose proof (invariant_run P env2 es) as (_ & H2 & _).
  split; [|split].
  - rewrite H1. intros cmd Hin. by apply list_elem_of_In, repeat_spec in Hin.
  - intros Hno Ha later. split.
    + by apply spawned_after_bound.
    + apply spawned_after_bound; [done|].
      destruct (run_shape P env1 env2 es) as (Ea & _). congruence.
  - intros _. rewrite H1, H2. f_equal. apply run_shape.
Qed.

Lemma C6_backend_command_witness :
  (* with PORT set to the internal port, and to another one, the spawn is the same *)
  spawned (trace (ServerJs.run Sample.platform {[ lit "PORT" := lit "8081" ]} [Bound])) =
    [(lit "gunicorn", [lit "app:app"; lit "--bind"; lit "0.0.0.0:8081"])] /\
  spawned (trace (ServerJs.run Sample.platform {[ lit "PORT" := lit "10000" ]} [Bound])) =
    [(lit "gunicorn", [lit "app:app"; lit "--bind"; lit "0.0.0.0:8081"])] /\
  (* the spawn that is there is the one the theorem names *)
  (exists cmd,
     cmd ∈ spawned (trace (ServerJs.run Sample.platform {[ lit "PORT" := lit "8081" ]}
                             [Bound; Closed 0 (VNumber 1)])) /\
     cmd = (lit "gunicorn", [lit "app:app"; lit "--bind"; lit "0.0.0.0:8081"])) /\
  spawned (trace (ServerJs.run Sample.platform {[ lit "PORT" := lit "8081" ]}
                    [Bound; Closed 0 (VNumber 1)])) =
  spawned (trace (ServerJs.run Sample.platform {[ lit "PORT" := lit "10000" ]}
                    [Bound; Closed 0 (VNumber 1)])).
Proof.
  pose proof (C6_backend_command Sample.platform
                {[ lit "PORT" := lit "8081" ]} {[ lit "PORT" := lit "10000" ]} [])
    as (_ & Hbound & _).
  pose proof (C6_backend_command Sample.platform
                {[ lit "PORT" := lit "8081" ]} {[ lit "PORT" := lit "10000" ]}
                [Bound; Closed 0 (VNumber 1)])
    as (Hevery & _ & Hsame).
  destruct (Hbound (not_elem_of_nil _) eq_refl []) as [Ha Hb].
  split; [exact Ha|]. split; [exact Hb|]. split.
  - destruct (Hbound (not_elem_of_nil _) eq_refl [Closed 0 (VNumber 1)]) as [Hc _].
    exists (lit "gunicorn", [lit "app:app"; lit "--bind"; lit "0.0.0.0:8081"]).
    split; [|apply Hevery]; cbn [app] in Hc; rewrite Hc; apply list_elem_of_here.
  - apply Hsame. by rewrite !delete_singleton_eq.
Defined.

(** C3: when the bind fails (the port is in use), the process does
    nothing more than die of the uncaught error with exit status 1: no
    second listen, no spawn, whatever comes after. *)
Theorem C3_port_in_use (P : platform) (env : gmap (list N) (list N)) (code : str) (es : list event) :
  trace (ServerJs.run P env (BindFailed code :: es)) =
    [Listen (ServerJs.PORT env); Uncaught code; Exit 1] /\
  alive (ServerJs.run P env (BindFailed code :: es)) = false /\
  exit_status (trace (ServerJs.run P env (BindFailed code :: es))) = Some 1%Z /\
  listened (trace (ServerJs.run P env (BindFailed code :: es))) = [ServerJs.PORT env] /\
  spawned (trace (ServerJs.run P env (BindFailed code :: es))) = [].
Proof.
  assert (ServerJs.run P env (BindFailed code :: es) =
          {| listeners := at_boot; children := 0;
             trace := [Listen (ServerJs.PORT env); Uncaught code; Exit 1]; alive := false |}) as ->.
  { change (BindFailed code :: es) with ([BindFailed code] ++ es).
    rewrite run_app. by rewrite run_events_dead. }
  done.
Qed.

(** C7: the backend is spawned at most once in the life of the process;
    not before the socket is bound; in the turn that handles the bound
    socket, after the "listening" line; and never again, also not after
    the child has closed. *)
Theorem C7_single_spawn (P : platform) (env : gmap (list N) (list N)) (es : list event) :
  (length (spawned (trace (ServerJs.run P env es))) <= 1)%nat /\
  children (ServerJs.run P env es) = length (spawned (trace (ServerJs.run P env es))) /\
  (Bound ∉ es -> spawned (trace (ServerJs.run P env es)) = []) /\
  (Bound ∉ es -> alive (ServerJs.run P env es) = true ->
     trace (ServerJs.run P env (es ++ [Bound])) = trace (ServerJs.run P env es) ++ bound_turn env /\
     forall later, spawned (trace (ServerJs.run P env (es ++ Bound :: later))) = [gunicorn]) /\
  (forall pid code,
     spawned (trace (ServerJs.run P env (es ++ [Closed pid code]))) =
     spawned (trace (ServerJs.run P env es))).
Proof.
  pose proof (invariant_run P env es) as (_ & Hsp & Hshape).
  pose proof (children_bound P env es) as Hle.
  split; [|split; [|split; [|split]]].
  - by rewrite Hsp, repeat_length.
  - by rewrite Hsp, repeat_length.
  - intros Hno. by rewrite Hsp, unbound_children.
  - intros Hno Ha. destruct (unbound_alive_at_boot P env es Hno Ha) as [Hl Hc].
    assert (Hturn : ServerJs.run P env (es ++ [Bound]) =
                    {| listeners := serving; children := 1;
                       trace := trace (ServerJs.run P env es) ++ bound_turn env; alive := true |}).
    { by rewrite run_snoc, (turn_at_boot P env _ Bound Ha Hl Hc). }
    split; [by rewrite Hturn|].
    intros later.
    pose proof (invariant_run P env (es ++ Bound :: later)) as (_ & -> & _).
    pose proof (children_bound P env (es ++ Bound :: later)).
    pose proof (run_children P env (es ++ [Bound]) later) as Hmono.
    rewrite <- app_assoc in Hmono. simpl in Hmono. rewrite Hturn in Hmono. simpl in Hmono.
    by replace (children (ServerJs.run P env (es ++ Bound :: later))) with 1%nat by lia.
  - intros pid code. rewrite run_snoc.
    destruct Hshape as [(Ha&Hl&Hc&_)|[(Ha&Hl&Hc&_)|(Ha&_)]].
    + by rewrite (turn_at_boot P env _ _ Ha Hl Hc).
    + rewrite (turn_serving P env _ _ Ha Hl Hc). destruct pid; [|done].
      simpl. rewrite spawned_app. simpl. by rewrite app_nil_r.
    + by rewrite step_dead.
Qed.

Lemma C7_single_spawn_witness :
  trace (ServerJs.run Sample.platform ∅ [Bound]) =
    [ Listen (VNumber 3000);
      ConsoleLog (lit "Node.js wrapper server listening on port 3000");
      ConsoleLog (lit "Starting Python Gunicorn server...");
      Spawn 0 (lit "gunicorn") [lit "app:app"; lit "--bind"; lit "0.0.0.0:8081"] ] /\
  spawned (trace (ServerJs.run Sample.platform ∅
                    [Bound; Closed 0 (VNumber 1); Incoming (Sample.get "/api/chat" "") Sample.stopped]))
    = [gunicorn].
Proof.
  destruct (C7_single_spawn Sample.platform ∅ []) as (_ & _ & _ & H & _).
  destruct H as [H1 H2].
  - apply not_elem_of_nil.
  - reflexivity.
  - split; [exact H1 | apply (H2 [Closed 0 (VNumber 1); Incoming (Sample.get "/api/chat" "") Sample.stopped])].
Defined.

Lemma trimStart_spec (s : str) :
  exists pre, s = pre ++ trimStart s /\ forallb isWhiteSpace pre = true /\
              forall c, head (trimStart s) = Some c -> isWhiteSpace c = false.
Proof.
  induction s as [|c s (pre & Heq & Hpre & Hhd)]; simpl.
  - exists []. done.
  - destruct (isWhiteSpace c) eqn:Hc.
    + exists (c :: pre). simpl. rewrite Hc, Hpre. split; [by f_equal|done].
    + exists []. simpl. split; [done|]. split; [done|]. by intros ? [= <-].
Qed.

Lemma trimStart_last (s : str) (c : N) :
  last (trimStart s) = Some c -> last s = Some c.
Proof.
  destruct (trimStart_spec s) as (pre & Heq & _ & _).
  intros Hl. rewrite Heq. destruct (trimStart s) as [|x t] eqn:E; [done|].
  rewrite last_app. by rewrite Hl.
Qed.

(** [trim] removes white space at both ends and nothing else. *)
Lemma trim_spec (s : str) :
  exists pre post,
    s = pre ++ trim s ++ post /\
    forallb isWhiteSpace pre = true /\ forallb isWhiteSpace post = true /\
    (forall c, head (trim s) = Some c -> isWhiteSpace c = false) /\
    (forall c, last (trim s) = Some c -> isWhiteSpace c = false).
Proof.
  unfold trim, trimEnd.
  destruct (trimStart_spec s) as (pre & Heq & Hpre & Hhd).
  destruct (trimStart_spec (reverse (trimStart s))) as (post & Heq' & Hpost & Hhd').
  exists pre, (reverse post). split; [|split; [done|split; [|split]]].
  - rewrite <- reverse_app, <- Heq', reverse_involutive. exact Heq.
  - rewrite forallb_forall in *. intros x Hx. apply Hpost.
    rewrite <- list_elem_of_In in *. by apply elem_of_reverse.
  - intros c Hc. rewrite head_reverse in Hc.
    apply trimStart_last in Hc. rewrite last_reverse in Hc. by apply Hhd.
  - intros c Hc. rewrite last_reverse in Hc. by apply Hhd'.
Qed.

(** C8, as the code has it: once the backend is spawned, exactly three
    listeners observe it; every chunk of its standard output becomes one
    [console.log] entry, the prefix and the chunk's text without the white
    space at its two ends (the line breaks inside are kept); every chunk of
    its standard error likewise, through [console.error]; and its close
    event logs the exit code ([null] after a signal). *)
Theorem C8_backend_observers (P : platform) (env : gmap (list N) (list N))
    (es : list event) (text : str) (code : value) :
  alive (ServerJs.run P env es) = true ->
  children (ServerJs.run P env es) = 1%nat ->
  observers 0 (listeners (ServerJs.run P env es)) =
    [ {| l_on := ChildStdout 0; l_ev := EvData; l_once := false; l_fn := ServerJs.stdout_cb |};
      {| l_on := ChildStderr 0; l_ev := EvData; l_once := false; l_fn := ServerJs.stderr_cb |};
      {| l_on := Child 0; l_ev := EvClose; l_once := false; l_fn := ServerJs.close_cb |} ] /\
  trace (ServerJs.run P env (es ++ [StdoutData 0 text])) =
    trace (ServerJs.run P env es) ++ [ConsoleLog (lit "[Python STDOUT]: " ++ trim text)] /\
  trace (ServerJs.run P env (es ++ [StderrData 0 text])) =
    trace (ServerJs.run P env es) ++ [ConsoleError (lit "[Python STDERR]: " ++ trim text)] /\
  trace (ServerJs.run P env (es ++ [Closed 0 code])) =
    trace (ServerJs.run P env es)
      ++ [ConsoleLog (lit "Python server process exited with code " ++ ToString code)] /\
  exists before after,
    text = before ++ trim text ++ after /\
    forallb isWhiteSpace before = true /\ forallb isWhiteSpace after = true /\
    (forall c, head (trim text) = Some c -> isWhiteSpace c = false) /\
    (forall c, last (trim text) = Some c -> isWhiteSpace c = false).
Proof.
  intros Ha Hc.
  assert (Hl : listeners (ServerJs.run P env es) = serving).
  { destruct (invariant_run P env es) as (_ & _ & [(_&_&?&_)|[(_&?&_)|(?&_)]]); congruence. }
  split; [by rewrite Hl|].
  rewrite !run_snoc, !(turn_serving P env _ _ Ha Hl Hc). simpl.
  repeat split; apply trim_spec.
Qed.

Lemma C8_backend_observers_witness :
  trace (ServerJs.run Sample.platform ∅ [Bound; StdoutData 0 (lit "  [INFO] Booting worker  ")]) =
    trace (ServerJs.run Sample.platform ∅ [Bound])
      ++ [ConsoleLog (lit "[Python STDOUT]: [INFO] Booting worker")] /\
  trace (ServerJs.run Sample.platform ∅ [Bound; Closed 0 VNull]) =
    trace (ServerJs.run Sample.platform ∅ [Bound])
      ++ [ConsoleLog (lit "Python server process exited with code null")].
Proof.
  destruct (C8_backend_observers Sample.platform ∅ [Bound] (lit "  [INFO] Booting worker  ") VNull)
    as (_ & H1 & _ & H2 & _); [reflexivity | reflexivity |].
  split; [exact H1 | exact H2].
Defined.

(** C8, as the specification words it, fails on a chunk of two lines:
    the code writes one entry, whose second line has no prefix, where the
    relay by line writes two. *)
Lemma C8_two_lines_one_entry :
  trace (ServerJs.run Sample.platform ∅ [Bound; StdoutData 0 (lit "a" ++ [LF] ++ lit "b" ++ [LF])]) =
    trace (ServerJs.run Sample.platform ∅ [Bound])
      ++ [ConsoleLog (lit "[Python STDOUT]: a" ++ [LF] ++ lit "b")] /\
  ConsoleLog <$> relay_by_line (lit "[Python STDOUT]: ") (lit "a" ++ [LF] ++ lit "b" ++ [LF]) =
    [ConsoleLog (lit "[Python STDOUT]: a"); ConsoleLog (lit "[Python STDOUT]: b")].
Proof. split; reflexivity. Qed.

(** ** Routing *)

Lemma layer_match_under (mount path : str) :
  mount <> [slash] ->
  if under_mount mount path then exists removed, layer_match mount path = Some removed
  else layer_match mount path = None.
Proof.
  intros Hm. unfold under_mount, layer_match.
  rewrite bool_decide_eq_false_2 by done.
  destruct (startsWith_ci mount path); simpl; [|done].
  destruct (drop (length mount) path) as [|c rest]; [eauto|].
  destruct (c =? slash); [|done].
  destruct rest as [|d ?]; [eauto|]. destruct (d =? slash); eauto.
Qed.

(** A live process answers a request with the effects of the stack, and
    nothing else of it changes. *)
Lemma turn_incoming P env (es : list event) (r : request) (w : world) :
  alive (ServerJs.run P env es) = true ->
  ServerJs.run P env (es ++ [Incoming r w]) =
    log_more (ServerJs.run P env es) (route P (ServerJs.stack P) r w).
Proof.
  intros Ha. rewrite run_snoc.
  destruct (invariant_run P env es) as (_ & _ & [(_&Hl&Hc&_)|[(_&Hl&Hc&_)|(Hd&_)]]).
  - by rewrite (turn_at_boot P env _ _ Ha Hl Hc).
  - by rewrite (turn_serving P env _ _ Ha Hl Hc).
  - congruence.
Qed.

(** The proxy of line 33, as configured on lines 34-35. *)
Lemma route_under_api P (r : request) (w : world) :
  under_mount (lit "/api") (pathname r) = true ->
  exists e,
    raw e = r /\
    route P (ServerJs.stack P) r w =
      match createProxyMiddleware P {| target := lit "http://localhost:8081"; changeOrigin := true |} e w with
      | Handled es => es
      | Next => []
      end.
Proof.
  intros Hu. pose proof (layer_match_under (lit "/api") (pathname r)) as Hm.
  rewrite Hu in Hm. destruct Hm as [removed Hm]; [done|].
  exists (enter removed r). split; [by destruct removed|].
  unfold route, ServerJs.stack; cbn [mount handle]. rewrite Hm.
  change (lit "http://localhost:" ++ ToString ServerJs.PYTHON_PORT) with (lit "http://localhost:8081").
  by destruct (proxy_outcome P {| target := lit "http://localhost:8081"; changeOrigin := true |}
                 (enter removed r) w) as (out & resp & ->).
Qed.

(** Everything else goes to [express.static], and from there to the 404
    of finalhandler. *)
Lemma route_not_under_api P (r : request) (w : world) :
  under_mount (lit "/api") (pathname r) = false ->
  route P (ServerJs.stack P) r w =
    match serveStatic P {| raw := r; path := pathname r; baseUrl := [] |} w with
    | Handled es => es
    | Next => [Respond (finalhandler P r)]
    end.
Proof.
  intros Hu. pose proof (layer_match_under (lit "/api") (pathname r)) as Hm.
  rewrite Hu in Hm. unfold route, ServerJs.stack; cbn [mount handle].
  rewrite Hm by done. reflexivity.
Qed.

Lemma under_mount_nonempty (path : str) :
  under_mount (lit "/api") path = true -> exists rest, path = slash :: rest.
Proof.
  unfold under_mount. destruct path as [|c rest]; [done|].
  intros [H _]%andb_prop. change (lit "/api") with [47; 97; 112; 105] in H.
  cbn [startsWith_ci] in H. apply andb_prop in H as [H%N.eqb_eq _].
  exists rest. f_equal. change (lower 47) with 47 in H. unfold lower in H.
  destruct ((65 <=? c) && (c <=? 90)) eqn:E; [|done].
  apply andb_prop in E as [E1%N.leb_le E2%N.leb_le]. lia.
Qed.

(** C9, as the code has it: a request whose path is [/api] or continues
    it with a slash (the letters in either case) goes to the proxy, which
    sends it upstream and answers; the file system is not looked at. *)
Theorem C9_proxy_before_static (P : platform) (env : gmap (list N) (list N))
    (es : list event) (r : request) (w : world) :
  alive (ServerJs.run P env es) = true ->
  under_mount (lit "/api") (pathname r) = true ->
  (exists out resp,
     trace (ServerJs.run P env (es ++ [Incoming r w])) =
       trace (ServerJs.run P env es) ++ [Upstream out; Respond resp] /\
     o_authority out = lit "localhost:8081") /\
  (forall tree,
     ServerJs.run P env (es ++ [Incoming r {| fs := tree; upstream := upstream w |}]) =
     ServerJs.run P env (es ++ [Incoming r w])).
Proof.
  intros Ha Hu. split.
  - rewrite (turn_incoming P env es r w Ha).
    destruct (route_under_api P r w Hu) as (e & _ & ->).
    unfold createProxyMiddleware. destruct (upstream w); simpl; eauto.
  - intros tree. rewrite !(turn_incoming P env es r _ Ha). f_equal.
    destruct (under_mount_nonempty _ Hu) as [rest Hp].
    pose proof (layer_match_under (lit "/api") (pathname r)) as Hm.
    rewrite Hu in Hm. destruct Hm as [removed Hm]; [done|].
    unfold route, ServerJs.stack; cbn [mount handle]. rewrite Hm.
    unfold createProxyMiddleware; simpl. by destruct (upstream w).
Qed.

Lemma C9_proxy_before_static_witness :
  ServerJs.run Sample.platform ∅
    [Incoming (Sample.get "/api/index.html" "")
       {| fs := fun _ => Some (File (lit "static")); upstream := upstream Sample.running |}] =
  ServerJs.run Sample.platform ∅ [Incoming (Sample.get "/api/index.html" "") Sample.running].
Proof.
  destruct (C9_proxy_before_static Sample.platform ∅ []
              (Sample.get "/api/index.html" "") Sample.running) as [_ H];
    [reflexivity | reflexivity |].
  exact (H (fun _ => Some (File (lit "static")))).
Defined.

(** C9, as stated, fails on [/api.html]: the path begins with [/api], the
    request is not proxied, and the static handler serves the file. *)
Lemma C9_api_html_is_static :
  begins_with_api (pathname (Sample.get "/api.html" "")) = true /\
  trace (ServerJs.run Sample.platform ∅ [Bound; Incoming (Sample.get "/api.html" "") Sample.running]) =
    trace (ServerJs.run Sample.platform ∅ [Bound])
      ++ [Respond {| status := 200; content_type := Some (lit "application/octet-stream");
                     location := None; payload := lit "<h1>api</h1>" |}].
Proof. split; reflexivity. Qed.

Lemma error_status_unreachable (code : str) :
  code ∈ [lit "ECONNREFUSED"; lit "ECONNRESET"] ->
  error_status code = 504%Z.
Proof.
  intros H. repeat (apply elem_of_cons in H as [->|H]; [reflexivity|]).
  by apply elem_of_nil in H.
Qed.

(** C4, as the code has it: while the connection to the backend is
    refused or reset, a request at or below [/api] is tried upstream once
    and answered in the same turn with status 504 by the proxy's error
    handler; the process keeps nothing of it. *)
Theorem C4_backend_unreachable (P : platform) (env : gmap (list N) (list N))
    (es : list event) (r : request) (w : world) (code : str) :
  alive (ServerJs.run P env es) = true ->
  under_mount (lit "/api") (pathname r) = true ->
  upstream w = Down code ->
  code ∈ [lit "ECONNREFUSED"; lit "ECONNRESET"] ->
  exists out resp,
    ServerJs.run P env (es ++ [Incoming r w]) =
      log_more (ServerJs.run P env es) [Upstream out; Respond resp] /\
    o_authority out = lit "localhost:8081" /\
    status resp = 504%Z /\
    gateway_error (status resp) = true.
Proof.
  intros Ha Hu Hdown Hcode.
  rewrite (turn_incoming P env es r w Ha).
  destruct (route_under_api P r w Hu) as (e & _ & ->).
  unfold createProxyMiddleware. rewrite Hdown.
  eexists _, _. split; [reflexivity|]. split; [reflexivity|]. simpl.
  by rewrite (error_status_unreachable code Hcode).
Qed.

Lemma C4_backend_unreachable_witness :
  exists out resp,
    ServerJs.run Sample.platform ∅ ([Bound] ++ [Incoming (Sample.get "/api/chat" "") Sample.stopped]) =
      log_more (ServerJs.run Sample.platform ∅ [Bound]) [Upstream out; Respond resp] /\
    o_authority out = lit "localhost:8081" /\
    status resp = 504%Z /\
    gateway_error (status resp) = true.
Proof.
  apply (C4_backend_unreachable Sample.platform ∅ [Bound]
           (Sample.get "/api/chat" "") Sample.stopped (lit "ECONNREFUSED")).
  - reflexivity.
  - reflexivity.
  - reflexivity.
  - apply list_elem_of_here.
Defined.

(** C4, as stated, fails on [/apiary]: the path begins with [/api], the
    backend is down, and the answer is the 404 of the static side, with no
    attempt upstream. *)
Lemma C4_apiary_not_found :
  begins_with_api (pathname (Sample.get "/apiary" "")) = true /\
  trace (ServerJs.run Sample.platform ∅ [Bound; Incoming (Sample.get "/apiary" "") Sample.stopped]) =
    trace (ServerJs.run Sample.platform ∅ [Bound])
      ++ [Respond (finalhandler Sample.platform (Sample.get "/apiary" ""))] /\
  status (finalhandler Sample.platform (Sample.get "/apiary" "")) = 404%Z /\
  gateway_error 404 = false.
Proof. repeat split; reflexivity. Qed.

(** ** The request target on its way upstream *)











(** ** The static side *)

Lemma plain_segment_spec (s : str) :
  plain_segment s = true ->
  (exists c t, s = c :: t /\ c <> dot) /\
  (slash ∉ s) /\ (backslash ∉ s) /\ (percent ∉ s) /\ (0 ∉ s).
Proof.
  unfold plain_segment. destruct s as [|c t]; [done|].
  intros [Hc Hall]%andb_prop. split.
  - exists c, t. split; [done|]. apply negb_true_iff, N.eqb_neq in Hc. done.
  - rewrite forallb_forall in Hall.
    assert (H : forall x, x ∈ [slash; backslash; percent; 0] -> x ∉ c :: t).
    { intros x Hx Hin. apply list_elem_of_In, Hall, negb_true_iff, bool_decide_eq_false in Hin.
      done. }
    repeat split; apply H; set_solver.
Qed.

Lemma split_segment (s rest : str) :
  slash ∉ s -> split slash (s ++ slash :: rest) = s :: split slash rest.
Proof.
  intros Hs. induction s as [|x s IH]; simpl.
  - reflexivity.
  - apply not_elem_of_cons in Hs as [Hx Hs]. rewrite (IH Hs).
    destruct (x =? slash) eqn:E; [apply N.eqb_eq in E; congruence|done].
Qed.

Lemma split_last_segment (s : str) : slash ∉ s -> split slash s = [s].
Proof.
  intros Hs. induction s as [|x s IH]; [done|]. simpl.
  apply not_elem_of_cons in Hs as [Hx Hs]. rewrite (IH Hs).
  destruct (x =? slash) eqn:E; [apply N.eqb_eq in E; congruence|done].
Qed.

(** The segments of [/s1/.../sn] followed by [tail], a path that is empty
    or a single slash. *)
Lemma split_path_of (segs : list str) (tail : str) :
  Forall (fun s => slash ∉ s) segs ->
  tail = [] \/ tail = [slash] ->
  segs <> [] \/ tail = [slash] ->
  split slash (path_of segs ++ tail) = [] :: segs ++ (if bool_decide (tail = []) then [] else [[]]).
Proof.
  intros Hall Htail Hne. induction Hall as [|s segs Hs Hall IH].
  - destruct Hne as [? | ->]; [done|]. reflexivity.
  - clear Hne. cbn [path_of flat_map]. fold (path_of segs). cbn [app split].
    rewrite N.eqb_refl. f_equal. rewrite <- app_assoc.
    destruct segs as [|s' segs].
    + cbn [path_of flat_map app]. destruct Htail as [-> | ->].
      * rewrite app_nil_r. by apply split_last_segment.
      * by rewrite split_segment.
    + assert (Hgo : split slash (path_of (s' :: segs) ++ tail) =
                    [] :: (s' :: segs) ++ (if bool_decide (tail = []) then [] else [[]]))
        by (apply IH; by left).
      cbn [path_of flat_map] in *. fold (path_of segs) in *.
      cbn [app] in *. rewrite split_segment by done.
      cbn [split] in Hgo. rewrite N.eqb_refl in Hgo. by injection Hgo as ->.
Qed.

Lemma normalizeString_plain (segs rest res : list str) :
  Forall (fun s => exists c t, s = c :: t /\ c <> dot) segs ->
  normalizeString (segs ++ rest) res = normalizeString rest (reverse segs ++ res).
Proof.
  intros Hall. revert res. induction Hall as [|s segs (c & t & -> & Hc) Hall IH]; intros res.
  - done.
  - cbn [app normalizeString].
    rewrite !bool_decide_eq_false_2 by (intros [=]; congruence). cbn [orb].
    rewrite IH, reverse_cons, <- app_assoc. done.
Qed.

Lemma up_scan_plain (b : bool) (s : str) :
  backslash ∉ s -> (b = true -> head s <> Some dot) -> up_scan b s = false.
Proof.
  revert b. induction s as [|c t IH]; intros b Hs Hb; [done|].
  apply not_elem_of_cons in Hs as [Hc Hs]. cbn [up_scan].
  rewrite IH; [|done|].
  - rewrite orb_false_r. destruct b; [|done].
    assert (c <> dot) as ->%N.eqb_neq by (intros ->; by apply Hb). done.
  - intros E. apply N.eqb_eq in E. congruence.
Qed.

Lemma endsWith_slash_app (a : str) (c : N) : endsWith_slash (a ++ [c]) = (c =? slash).
Proof. unfold endsWith_slash. by rewrite last_snoc. Qed.

Lemma path_of_no_trailing_slash (segs : list str) :
  segs <> [] ->
  Forall (fun s => (exists c t, s = c :: t /\ c <> dot) /\ slash ∉ s) segs ->
  endsWith_slash (path_of segs) = false.
Proof.
  intros Hne Hall. induction Hall as [|s segs [(c & t & -> & _) Hs] Hall IH]; [done|].
  cbn [path_of flat_map]. fold (path_of segs).
  destruct segs as [|s' segs].
  - cbn [path_of flat_map]. rewrite app_nil_r.
    destruct (exists_last (l := c :: t)) as (init & z & E); [done|].
    rewrite E in *.
    change (slash :: init ++ [z]) with ((slash :: init) ++ [z]).
    rewrite endsWith_slash_app. apply N.eqb_neq. intros ->. apply Hs.
    apply elem_of_app. right. apply list_elem_of_here.
  - assert (IH' : endsWith_slash (path_of (s' :: segs)) = false) by (by apply IH).
    unfold endsWith_slash in *.
    rewrite last_app.
    destruct (last (path_of (s' :: segs))) eqn:E; [done|].
    by apply last_None in E.
Qed.

Lemma path_of_elem (x : N) (segs : list str) :
  x ∈ path_of segs -> x = slash \/ exists s, s ∈ segs /\ x ∈ s.
Proof.
  induction segs as [|s segs IH]; [by intros ?%elem_of_nil|].
  intros Hx. change (x ∈ (slash :: s) ++ path_of segs) in Hx.
  apply elem_of_app in Hx as [Hx|Hx]; [apply elem_of_cons in Hx as [->|Hx]; [by left|]|].
  - right. exists s. split; [apply list_elem_of_here|done].
  - destruct (IH Hx) as [->|(s' & Hs' & Hx')]; [by left|].
    right. exists s'. split; [by apply list_elem_of_further|done].
Qed.

Lemma plain_segments_spec (segs : list str) :
  forallb plain_segment segs = true ->
  Forall (fun s => (exists c t, s = c :: t /\ c <> dot) /\ (slash ∉ s)) segs /\
  (forall x, x ∈ [backslash; percent; 0] -> forall tail, tail = [] \/ tail = [slash] ->
     x ∉ path_of segs ++ tail) /\
  up_path segs = false /\
  (forall trailing, dotfile_ignored segs trailing = false).
Proof.
  intros Hall. rewrite forallb_forall in Hall.
  assert (Hspec : forall s, s ∈ segs ->
            (exists c t, s = c :: t /\ c <> dot) /\
            (slash ∉ s) /\ (backslash ∉ s) /\ (percent ∉ s) /\ (0 ∉ s)).
  { intros s Hs. by apply plain_segment_spec, Hall, list_elem_of_In. }
  split; [|split; [|split]].
  - apply Forall_forall. intros s Hs. destruct (Hspec s Hs) as (? & ? & _). done.
  - intros x Hx tail Htail Hin. apply elem_of_app in Hin as [Hin|Hin].
    + apply path_of_elem in Hin as [->|(s & Hs & Hxs)].
      * repeat (apply elem_of_cons in Hx as [Hx|Hx]; [by vm_compute in Hx|]).
        by apply elem_of_nil in Hx.
      * destruct (Hspec s Hs) as (_ & _ & H1 & H2 & H3).
        repeat (apply elem_of_cons in Hx as [->|Hx]; [done|]).
        by apply elem_of_nil in Hx.
    + destruct Htail as [-> | ->]; [by apply elem_of_nil in Hin|].
      apply list_elem_of_singleton in Hin as ->.
      repeat (apply elem_of_cons in Hx as [Hx|Hx]; [by vm_compute in Hx|]).
      by apply elem_of_nil in Hx.
  - unfold up_path. apply not_true_iff_false. rewrite existsb_exists.
    intros (s & Hs%list_elem_of_In & Hup).
    destruct (Hspec s Hs) as ((c & t & -> & Hc) & _ & Hb & _).
    rewrite up_scan_plain in Hup; [done|done|]. intros _ [= ->]. done.
  - intros trailing. unfold dotfile_ignored.
    replace (existsb is_dotfile segs) with false; [done|].
    symmetry. apply not_true_iff_false. rewrite existsb_exists.
    intros (s & Hs%list_elem_of_In & Hd).
    destruct (Hspec s Hs) as ((c & t & -> & Hc) & _).
    unfold is_dotfile in Hd. destruct t; [done|]. by apply N.eqb_eq in Hd.
Qed.

Lemma static_segments (segs : list str) (tail : str) :
  forallb plain_segment segs = true ->
  tail = [] \/ tail = [slash] ->
  segs <> [] \/ tail = [slash] ->
  normalizeString (split slash (dot :: slash :: path_of segs ++ tail)) [] = segs.
Proof.
  intros Hplain Htail Hne.
  destruct (plain_segments_spec segs Hplain) as (Hall & _).
  change (dot :: slash :: path_of segs ++ tail) with ([dot] ++ slash :: (path_of segs ++ tail)).
  rewrite split_segment by (by intros [=]%list_elem_of_singleton).
  rewrite split_path_of; [|by eapply Forall_impl; [exact Hall|intros ? [_ ?]]|done|done].
  cbn [app normalizeString].
  rewrite (bool_decide_eq_false_2 ([dot] = [])) by done.
  rewrite (bool_decide_eq_true_2 ([dot] = [dot])) by done.
  rewrite (bool_decide_eq_true_2 (@nil N = [])) by done. cbn [orb].
  rewrite normalizeString_plain by (eapply Forall_impl; [exact Hall|by intros ? [? _]]).
  rewrite app_nil_r.
  destruct Htail as [-> | ->]; cbn; by rewrite reverse_involutive.
Qed.

(** What [express.static] does with a request for [/s1/.../sn]. *)
Lemma static_file (P : platform) (r : request) (w : world) (segs : list str) :
  method r = lit "GET" \/ method r = lit "HEAD" ->
  forallb plain_segment segs = true -> segs <> [] ->
  pathname r = path_of segs ->
  serveStatic P {| raw := r; path := pathname r; baseUrl := [] |} w =
    match fs w segs with
    | Some (File content) => Handled [Respond (send_file P r segs content)]
    | Some Dir => Handled [Respond (redirect P r)]
    | None => Next
    end.
Proof.
  intros Hm Hplain Hne Hpath.
  destruct (plain_segments_spec segs Hplain) as (Hall & Hchars & Hup & Hdot).
  pose proof (static_segments segs [] Hplain (or_introl eq_refl) (or_introl Hne)) as Hsegs.
  pose proof (path_of_no_trailing_slash segs Hne Hall) as Hslash.
  rewrite app_nil_r in Hsegs.
  assert (Hp : forall x, x ∈ [backslash; percent; 0] -> x ∉ path_of segs).
  { intros x Hx. specialize (Hchars x Hx [] (or_introl eq_refl)). by rewrite app_nil_r in Hchars. }
  assert (Hmeth : negb (bool_decide (method r = lit "GET") || bool_decide (method r = lit "HEAD"))
                  = false) by (destruct Hm as [E|E]; rewrite E; reflexivity).
  assert (Hmatch : match path_of segs with
                   | [] => []
                   | _ :: _ => normalizeString (split slash (dot :: slash :: path_of segs)) []
                   end = segs).
  { destruct (path_of segs) eqn:E; [destruct segs; [done|discriminate]|]. exact Hsegs. }
  unfold serveStatic. cbv zeta. cbn [raw path]. rewrite Hpath, Hmeth, Hslash.
  cbn [negb]. rewrite andb_true_r, (bool_decide_eq_false_2 (path_of segs = [slash]))
    by (intros E; by rewrite E in Hslash).
  unfold decode. rewrite bool_decide_eq_false_2 by (apply Hp; repeat constructor).
  rewrite bool_decide_eq_false_2 by (apply Hp; repeat constructor).
  rewrite Hmatch, Hup, Hdot, ?Hslash, ?endsWith_slash_app. reflexivity.
Qed.

(** ... and with a request for the directory [/s1/.../sn/]. *)
Lemma static_index (P : platform) (r : request) (w : world) (segs : list str) :
  method r = lit "GET" \/ method r = lit "HEAD" ->
  forallb plain_segment segs = true ->
  pathname r = path_of segs ++ [slash] ->
  serveStatic P {| raw := r; path := pathname r; baseUrl := [] |} w =
    match fs w (segs ++ [lit "index.html"]) with
    | Some (File content) =>
        Handled [Respond (send_file P r (segs ++ [lit "index.html"]) content)]
    | _ => Next
    end.
Proof.
  intros Hm Hplain Hpath.
  destruct (plain_segments_spec segs Hplain) as (Hall & Hchars & Hup & Hdot).
  pose proof (static_segments segs [slash] Hplain (or_intror eq_refl) (or_intror eq_refl)) as Hsegs.
  assert (Hp : forall x, x ∈ [backslash; percent; 0] -> x ∉ path_of segs ++ [slash]).
  { intros x Hx. apply (Hchars x Hx). by right. }
  assert (Hmeth : negb (bool_decide (method r = lit "GET") || bool_decide (method r = lit "HEAD"))
                  = false) by (destruct Hm as [E|E]; rewrite E; reflexivity).
  assert (Hmatch : match path_of segs ++ [slash] with
                   | [] => []
                   | _ :: _ =>
                       normalizeString (split slash (dot :: slash :: path_of segs ++ [slash])) []
                   end = segs).
  { destruct (path_of segs ++ [slash]) eqn:E; [by destruct (path_of segs)|]. exact Hsegs. }
  unfold serveStatic. cbv zeta. cbn [raw path].
  rewrite Hpath, Hmeth, endsWith_slash_app. change (slash =? slash) with true.
  rewrite andb_false_r.
  unfold decode. rewrite bool_decide_eq_false_2 by (apply Hp; repeat constructor).
  rewrite bool_decide_eq_false_2 by (apply Hp; repeat constructor).
  rewrite Hmatch, Hup, Hdot, ?Hslash, ?endsWith_slash_app. reflexivity.
Qed.

(** C2, as the code has it: a plain GET for a path that is not at or below
    [/api] and is made of plain segments gets the file of that path, its
    exact bytes with the type inferred from the path; a redirect when the
    path names a directory; and the 404 of finalhandler when it names
    nothing, whether or not there is an index document.  The index document
    [index.html] answers a path that ends with a slash, when the directory
    holds one; otherwise that is a 404 too. *)
Theorem C2_static_files (P : platform) (env : gmap (list N) (list N))
    (es : list event) (r : request) (w : world) (segs : list str) :
  alive (ServerJs.run P env es) = true ->
  under_mount (lit "/api") (pathname r) = false ->
  method r = lit "GET" ->
  conditional r = false ->
  forallb plain_segment segs = true ->
  (segs <> [] -> pathname r = path_of segs ->
     trace (ServerJs.run P env (es ++ [Incoming r w])) =
       trace (ServerJs.run P env es)
         ++ [Respond match fs w segs with
                     | Some (File content) =>
                         {| status := 200; content_type := Some (mime_lookup P segs);
                            location := None; payload := content |}
                     | Some Dir => redirect P r
                     | None => finalhandler P r
                     end]) /\
  (pathname r = path_of segs ++ [slash] ->
     trace (ServerJs.run P env (es ++ [Incoming r w])) =
       trace (ServerJs.run P env es)
         ++ [Respond match fs w (segs ++ [lit "index.html"]) with
                     | Some (File content) =>
                         {| status := 200;
                            content_type := Some (mime_lookup P (segs ++ [lit "index.html"]));
                            location := None; payload := content |}
                     | _ => finalhandler P r
                     end]).
Proof.
  intros Ha Hu Hget Hcond Hplain.
  rewrite (turn_incoming P env es r w Ha), (route_not_under_api P r w Hu). cbn [log_more trace].
  assert (Hsend : forall file content,
            send_file P r file content =
              {| status := 200; content_type := Some (mime_lookup P file);
                 location := None; payload := content |}).
  { intros. unfold send_file. by rewrite Hcond, Hget. }
  split.
  - intros Hne Hpath.
    rewrite (static_file P r w segs (or_introl Hget) Hplain Hne Hpath).
    destruct (fs w segs) as [[content|]|]; by rewrite ?Hsend.
  - intros Hpath.
    rewrite (static_index P r w segs (or_introl Hget) Hplain Hpath).
    destruct (fs w (segs ++ [lit "index.html"])) as [[content|]|]; by rewrite ?Hsend.
Qed.

Lemma C2_static_files_witness :
  trace (ServerJs.run Sample.platform ∅ ([Bound] ++ [Incoming (Sample.get "/index.html" "") Sample.running])) =
    trace (ServerJs.run Sample.platform ∅ [Bound])
      ++ [Respond {| status := 200; content_type := Some (lit "application/octet-stream");
                     location := None; payload := lit "<h1>chat</h1>" |}].
Proof.
  pose proof (C2_static_files Sample.platform ∅ [Bound] (Sample.get "/index.html" "")
                Sample.running [lit "index.html"] eq_refl eq_refl eq_refl eq_refl eq_refl) as [H _].
  apply H; [discriminate | reflexivity].
Defined.

(** C2, as stated, fails on [/missing-page]: no file has that path, an
    index document exists, and the response is the 404 page, not the index
    document. *)
Lemma C2_missing_page_not_found :
  begins_with_api (pathname (Sample.get "/missing-page" "")) = false /\
  Sample.tree [lit "missing-page"] = None /\
  Sample.tree [lit "index.html"] = Some (File (lit "<h1>chat</h1>")) /\
  trace (ServerJs.run Sample.platform ∅
           [Bound; Incoming (Sample.get "/missing-page" "") Sample.running]) =
    trace (ServerJs.run Sample.platform ∅ [Bound])
      ++ [Respond {| status := 404; content_type := Some (lit "text/html; charset=utf-8");
                     location := None; payload := lit "<!DOCTYPE html>" |}].
Proof. repeat split; reflexivity. Qed.

(** ** The copy in part_000 *)

Lemma same_call P env (c : ServerJs.closure) (a : arg) (p : proc ServerJs.closure) :
  Part000.call P env (same_fn c) a (same_proc p) =
    ((ServerJs.call P env c a p).1, same_proc (ServerJs.call P env c a p).2).
Proof.
  destruct p as [ls ch t al].
  destruct c, a; try reflexivity;
    cbn [same_fn ServerJs.call Part000.call].
  all: try (rewrite !perform_all_spec; reflexivity).
  all: unfold same_proc, ServerJs.startPythonServer, Part000.startPythonServer,
         mbind, M_bind, bind, perform, spawn, on, add_listener; cbn;
       rewrite ?fmap_app; reflexivity.
Qed.

Lemma same_call_all P env (ls : list (listener ServerJs.closure)) (a : arg)
    (p : proc ServerJs.closure) :
  call_all (Part000.call P env) (same_listener <$> ls) a (same_proc p) =
    ((call_all (ServerJs.call P env) ls a p).1,
     same_proc (call_all (ServerJs.call P env) ls a p).2).
Proof.
  revert p. induction ls as [|l ls IH]; intros p; [done|].
  cbn [fmap list_fmap call_all same_listener l_fn]. unfold bind.
  rewrite same_call.
  destruct (ServerJs.call P env (l_fn l) a p) as [[[]|] p']; cbn [fst snd]; [apply IH|done].
Qed.

Lemma same_filter_listens (em : emitter) (ev : evname) (ls : list (listener ServerJs.closure)) :
  List.filter (listens em ev) (same_listener <$> ls) =
  same_listener <$> List.filter (listens em ev) ls.
Proof.
  induction ls as [|l ls IH]; [done|]. cbn [fmap list_fmap List.filter].
  change (listens em ev (same_listener l)) with (listens em ev l).
  destruct (listens em ev l); cbn [fmap list_fmap]; by rewrite <- IH.
Qed.

Lemma same_filter_rest (em : emitter) (ev : evname) (ls : list (listener ServerJs.closure)) :
  List.filter (fun l => negb (listens em ev l && l_once l)) (same_listener <$> ls) =
  same_listener <$> List.filter (fun l => negb (listens em ev l && l_once l)) ls.
Proof.
  induction ls as [|l ls IH]; [done|]. cbn [fmap list_fmap List.filter].
  change (listens em ev (same_listener l) && l_once (same_listener l))
    with (listens em ev l && l_once l).
  destruct (negb (listens em ev l && l_once l)); cbn [fmap list_fmap]; by rewrite <- IH.
Qed.

Lemma same_emit P env (em : emitter) (ev : evname) (a : arg) (p : proc ServerJs.closure) :
  (emit (Part000.call P env) em ev a (same_proc p)).2 =
    same_proc (emit (ServerJs.call P env) em ev a p).2.
Proof.
  unfold emit. cbn [same_proc listeners children trace alive].
  rewrite same_filter_listens, same_filter_rest.
  destruct (List.filter (listens em ev) (listeners p)) as [|l ls] eqn:E.
  - destruct ev, a; reflexivity.
  - cbn [fmap list_fmap].
    pose proof (same_call_all P env (l :: ls) a
                  {| listeners := List.filter (fun l0 => negb (listens em ev l0 && l_once l0))
                                    (listeners p);
                     children := children p; trace := trace p; alive := alive p |}) as Hcall.
    unfold same_proc at 1 in Hcall. cbn [listeners children trace alive fmap list_fmap] in Hcall.
    by rewrite Hcall.
Qed.

Lemma same_step P env (p : proc ServerJs.closure) (e : event) :
  step (Part000.call P env) (same_proc p) e = same_proc (step (ServerJs.call P env) p e).
Proof.
  unfold step. cbn [same_proc alive]. destruct (alive p) eqn:Ha; [|done].
  destruct e; cbn [deliver]; apply same_emit.
Qed.

(** C10: the program of [src/server.js] and the program of
    [src/unnamed/part_000] behave alike: after the same events in the same
    environment they have written the same trace, have spawned the same
    children, are both alive or both not, and have the corresponding
    listeners. *)
Theorem C10_same_program (P : platform) (env : gmap (list N) (list N)) (es : list event) :
  Part000.run P env es = same_proc (ServerJs.run P env es) /\
  trace (Part000.run P env es) = trace (ServerJs.run P env es) /\
  children (Part000.run P env es) = children (ServerJs.run P env es) /\
  alive (Part000.run P env es) = alive (ServerJs.run P env es).
Proof.
  assert (H : Part000.run P env es = same_proc (ServerJs.run P env es)).
  { unfold Part000.run, ServerJs.run.
    induction es as [|e es IH] using rev_ind; [reflexivity|].
    by rewrite !run_events_snoc, IH, same_step. }
  by rewrite H.
Qed.

(** ** Further properties and examples *)

(** A backend that cannot be spawned is fatal to the gateway: the child
    emits [error], nothing listens for it, and the process exits with
    status 1. *)
Theorem spawn_failure_is_fatal (P : platform) (env : gmap (list N) (list N))
    (es : list event) (code : str) :
  alive (ServerJs.run P env es) = true ->
  children (ServerJs.run P env es) = 1%nat ->
  ServerJs.run P env (es ++ [SpawnFailed 0 code]) =
    {| listeners := serving; children := 1;
       trace := trace (ServerJs.run P env es) ++ [Uncaught code; Exit 1]; alive := false |}.
Proof.
  intros Ha Hc.
  assert (Hl : listeners (ServerJs.run P env es) = serving).
  { destruct (invariant_run P env es) as (_ & _ & [(_&_&?&_)|[(_&?&_)|(?&_)]]); congruence. }
  by rewrite run_snoc, (turn_serving P env _ _ Ha Hl Hc).
Qed.

Lemma spawn_failure_is_fatal_witness :
  exit_status (trace (ServerJs.run Sample.platform ∅ ([Bound] ++ [SpawnFailed 0 (lit "ENOENT")]))) =
    Some 1%Z.
Proof.
  by rewrite (spawn_failure_is_fatal Sample.platform ∅ [Bound] (lit "ENOENT") eq_refl eq_refl).
Defined.

(** The static side answers GET and HEAD only: any other method on a path
    that is not at or below [/api] gets the 404 of finalhandler, also
    where a file exists. *)
Theorem static_other_methods (P : platform) (env : gmap (list N) (list N))
    (es : list event) (r : request) (w : world) :
  alive (ServerJs.run P env es) = true ->
  under_mount (lit "/api") (pathname r) = false ->
  method r <> lit "GET" -> method r <> lit "HEAD" ->
  trace (ServerJs.run P env (es ++ [Incoming r w])) =
    trace (ServerJs.run P env es) ++ [Respond (finalhandler P r)].
Proof.
  intros Ha Hu Hget Hhead.
  rewrite (turn_incoming P env es r w Ha), (route_not_under_api P r w Hu). cbn [log_more trace].
  unfold serveStatic. cbn [raw].
  by rewrite (bool_decide_eq_false_2 _ Hget), (bool_decide_eq_false_2 _ Hhead).
Qed.

Lemma static_other_methods_witness :
  trace (ServerJs.run Sample.platform ∅
           ([Bound] ++ [Incoming {| method := lit "POST"; pathname := lit "/index.html"; search := [];
                                    headers := []; body := lit "x" |} Sample.running])) =
    trace (ServerJs.run Sample.platform ∅ [Bound])
      ++ [Respond (finalhandler Sample.platform
                     {| method := lit "POST"; pathname := lit "/index.html"; search := [];
                        headers := []; body := lit "x" |})].
Proof.
  apply (static_other_methods Sample.platform ∅ [Bound]); [reflexivity | reflexivity | | ]; discriminate.
Defined.

Example mount_matches_segments :
  layer_match (lit "/api") (lit "/api") = Some (lit "/api") /\
  layer_match (lit "/api") (lit "/api/") = Some (lit "/api/") /\
  layer_match (lit "/api") (lit "/API/chat") = Some (lit "/API") /\
  layer_match (lit "/api") (lit "/api.html") = None /\
  layer_match (lit "/api") (lit "/apiary") = None /\
  layer_match (lit "/") (lit "/anything") = Some [].
Proof. repeat split; reflexivity. Qed.

Example mount_stripped_url :
  url (enter (lit "/api") (Sample.get "/api/voices" "?lang=hi")) = lit "/voices?lang=hi" /\
  url (enter (lit "/api") (Sample.get "/api" "?lang=hi")) = lit "/?lang=hi".
Proof. split; reflexivity. Qed.

Example urlJoin_collapses_slashes :
  urlJoin [slash] (lit "/api//voices?next=//x") = lit "/api/voices?next=//x".
Proof. reflexivity. Qed.

Example proxy_collapses_empty_segments :
  route Sample.platform (ServerJs.stack Sample.platform) (Sample.get "/api//voices" "") Sample.running =
    [ Upstream {| o_authority := lit "localhost:8081"; o_method := lit "GET";
                  o_path := lit "/api/voices"; o_host := VString (lit "localhost:8081");
                  o_body := [] |};
      Respond (Sample.ok {| o_authority := lit "localhost:8081"; o_method := lit "GET";
                            o_path := lit "/api/voices"; o_host := VString (lit "localhost:8081");
                            o_body := [] |}) ].
Proof. reflexivity. Qed.

Example trim_both_ends :
  trim (lit "  [2024] Listening at: http://0.0.0.0:8081 " ++ [LF]) =
    lit "[2024] Listening at: http://0.0.0.0:8081".
Proof. reflexivity. Qed.

Example normalize_dot_segments :
  normalizeString (split slash (lit ".//a/./b/../c/")) [] = [lit "a"; lit "c"] /\
  normalizeString (split slash (lit ".//../etc/passwd")) [] = [lit ".."; lit "etc"; lit "passwd"] /\
  up_path [lit ".."; lit "etc"; lit "passwd"] = true.
Proof. repeat split; reflexivity. Qed.

Example dotfiles_policy :
  dotfile_ignored [lit ".env"] false = true /\
  dotfile_ignored [lit ".well-known"; lit "security.txt"] false = false.
Proof. split; reflexivity. Qed.

Example root_serves_index :
  route Sample.platform (ServerJs.stack Sample.platform) (Sample.get "/" "") Sample.running =
    [Respond {| status := 200; content_type := Some (lit "application/octet-stream");
                location := None; payload := lit "<h1>chat</h1>" |}].
Proof. reflexivity. Qed.

Example error_statuses :
  error_status (lit "ECONNREFUSED") = 504%Z /\
  error_status (lit "HPE_INVALID_CONSTANT") = 502%Z /\
  error_status (lit "EPIPE") = 500%Z.
Proof. repeat split; reflexivity. Qed.

Example port_values :
  ServerJs.PORT ∅ = VNumber 3000 /\
  ServerJs.PORT {[ lit "PORT" := [] ]} = VNumber 3000 /\
  ServerJs.PORT {[ lit "PORT" := lit "10000" ]} = VString (lit "10000").
Proof. repeat split; reflexivity. Qed.

(** ** Requests: one answer each, from one side *)

(** A request whose path is not at or below [/api] is answered by the
    gateway itself, exactly once and with nothing sent upstream: by the
    static middleware, or by the 404 of finalhandler when that falls
    through.  The response is fixed by the request, the file tree and the
    platform: it is the same in every environment and after every history
    that leaves the gateway running. *)
Theorem static_request_answered_once (P : platform) (r : request) (w : world) :
  under_mount (lit "/api") (pathname r) = false ->
  exists resp,
    route P (ServerJs.stack P) r w = [Respond resp] /\
    forall env es,
      alive (ServerJs.run P env es) = true ->
      ServerJs.run P env (es ++ [Incoming r w]) =
        log_more (ServerJs.run P env es) [Respond resp].
Proof.
  intros Hu.
  assert (exists resp, route P (ServerJs.stack P) r w = [Respond resp]) as [resp Hresp].
  { rewrite (route_not_under_api P r w Hu).
    destruct (serveStatic_outcome P {| raw := r; path := pathname r; baseUrl := [] |} w)
      as [-> | [resp ->]]; eauto. }
  exists resp. split; [done|].
  intros env es Ha. by rewrite (turn_incoming P env es r w Ha), Hresp.
Qed.

Lemma static_request_answered_once_witness :
  exists resp,
    route Sample.platform (ServerJs.stack Sample.platform)
      (Sample.get "/favicon.ico" "") Sample.stopped = [Respond resp] /\
    forall env es,
      alive (ServerJs.run Sample.platform env es) = true ->
      ServerJs.run Sample.platform env (es ++ [Incoming (Sample.get "/favicon.ico" "") Sample.stopped]) =
        log_more (ServerJs.run Sample.platform env es) [Respond resp].
Proof.
  apply (static_request_answered_once Sample.platform (Sample.get "/favicon.ico" "") Sample.stopped).
  reflexivity.
Defined.

(** A request whose path is not at or below [/api] never reaches the
    backend: nothing is sent upstream, and the response is the same
    whether the backend is up or down. *)
Theorem static_side_never_contacts_backend (P : platform) (env : gmap (list N) (list N))
    (es : list event) (r : request) (tree : list str -> option entry) (up1 up2 : backend) :
  under_mount (lit "/api") (pathname r) = false ->
  upstreams (route P (ServerJs.stack P) r {| fs := tree; upstream := up1 |}) = [] /\
  ServerJs.run P env (es ++ [Incoming r {| fs := tree; upstream := up1 |}]) =
  ServerJs.run P env (es ++ [Incoming r {| fs := tree; upstream := up2 |}]).
Proof.
  intros Hu. split.
  - rewrite (route_not_under_api P r _ Hu).
    by destruct (serveStatic_outcome P {| raw := r; path := pathname r; baseUrl := [] |}
                   {| fs := tree; upstream := up1 |}) as [-> | [resp ->]].
  - rewrite !run_snoc.
    destruct (alive (ServerJs.run P env es)) eqn:Ha; [|by rewrite !step_dead].
    rewrite <- !run_snoc, !(turn_incoming P env es r _ Ha), !(route_not_under_api P r _ Hu).
    reflexivity.
Qed.

Lemma static_side_never_contacts_backend_witness :
  ServerJs.run Sample.platform ∅ ([Bound] ++ [Incoming (Sample.get "/index.html" "") Sample.running]) =
  ServerJs.run Sample.platform ∅ ([Bound] ++ [Incoming (Sample.get "/index.html" "") Sample.stopped]).
Proof.
  apply (static_side_never_contacts_backend Sample.platform ∅ [Bound]
           (Sample.get "/index.html" "") Sample.tree (Up Sample.ok) (Down (lit "ECONNREFUSED"))).
  reflexivity.
Defined.

(** Whatever the request target, a request at or below [/api] is sent to
    [localhost:8081] with its own method and body and with the Host header
    [localhost:8081], whatever Host the client sent; when the backend
    answers, that answer is the gateway's. *)
Theorem proxy_target_fixed (P : platform) (r : request) (w : world) :
  under_mount (lit "/api") (pathname r) = true ->
  exists out resp,
    route P (ServerJs.stack P) r w = [Upstream out; Respond resp] /\
    o_authority out = lit "localhost:8081" /\
    o_host out = VString (lit "localhost:8081") /\
    o_method out = method r /\
    o_body out = body r /\
    (forall reply, upstream w = Up reply -> resp = reply out).
Proof.
  intros Hu. destruct (route_under_api P r w Hu) as (e & He & ->).
  unfold createProxyMiddleware. rewrite He.
  destruct (upstream w) as [reply|code]; eexists _, _; (split; [reflexivity|]);
    repeat split; try reflexivity.
  - by intros ? [= <-].
  - by intros ? [=].
Qed.

Lemma proxy_target_fixed_witness :
  exists out resp,
    route Sample.platform (ServerJs.stack Sample.platform)
      {| method := lit "POST"; pathname := lit "/api//chat"; search := lit "?a=b c";
         headers := [(lit "host", lit "chat.example.org")]; body := lit "hello" |}
      Sample.running = [Upstream out; Respond resp] /\
    o_authority out = lit "localhost:8081" /\
    o_host out = VString (lit "localhost:8081") /\
    o_method out = lit "POST" /\
    o_body out = lit "hello" /\
    (forall reply, upstream Sample.running = Up reply -> resp = reply out).
Proof.
  apply (proxy_target_fixed Sample.platform
           {| method := lit "POST"; pathname := lit "/api//chat"; search := lit "?a=b c";
              headers := [(lit "host", lit "chat.example.org")]; body := lit "hello" |}
           Sample.running).
  reflexivity.
Defined.

(** ** What ends the gateway, and what does not *)

(** The gateway exits on an [error] event (of the server or of a child)
    and on nothing else: output and exit of the backend, requests and the
    bound socket leave it running. *)
Theorem gateway_exits_on_errors_only (P : platform) (env : gmap (list N) (list N))
    (es : list event) (e : event) :
  alive (ServerJs.run P env (es ++ [e])) =
    alive (ServerJs.run P env es) && negb (is_error_event e).
Proof.
  rewrite run_snoc.
  destruct (invariant_run P env es) as (_ & _ & [(Ha&Hl&Hc&_)|[(Ha&Hl&Hc&_)|(Ha&_)]]).
  - rewrite (turn_at_boot P env _ e Ha Hl Hc), Ha. by destruct e.
  - rewrite (turn_serving P env _ e Ha Hl Hc), Ha.
    by destruct e as [| | |[|pid]|[|pid]|[|pid]|].
  - by rewrite step_dead, Ha.
Qed.

(** ** The environment and the HTTP side *)

Lemma http_effects_app (t1 t2 : list effect) :
  List.filter is_http (t1 ++ t2) = List.filter is_http t1 ++ List.filter is_http t2.
Proof. apply List.filter_app. Qed.

(** What the gateway sends upstream and what it answers do not depend on
    the environment: PORT decides where the gateway listens, and nothing
    about how requests are handled. *)
Theorem http_independent_of_env (P : platform) (env1 env2 : gmap (list N) (list N))
    (es : list event) :
  List.filter is_http (trace (ServerJs.run P env1 es)) =
  List.filter is_http (trace (ServerJs.run P env2 es)).
Proof.
  induction es as [|e es IH] using rev_ind; [reflexivity|].
  destruct (run_shape P env1 env2 es) as (Ea & El & Ec).
  rewrite !run_snoc.
  destruct (invariant_run P env1 es) as (_ & _ & [(Ha&Hl&Hc&_)|[(Ha&Hl&Hc&_)|(Ha&_)]]).
  - rewrite (turn_at_boot P env1 _ e Ha Hl Hc).
    rewrite (turn_at_boot P env2 _ e); [|congruence..].
    destruct e; cbn [trace log_more]; rewrite ?http_effects_app, ?IH; reflexivity.
  - rewrite (turn_serving P env1 _ e Ha Hl Hc).
    rewrite (turn_serving P env2 _ e); [|congruence..].
    destruct e as [| | |[|pid]|[|pid]|[|pid]|];
      cbn [trace log_more]; rewrite ?http_effects_app, ?IH; reflexivity.
  - rewrite !step_dead; [done|congruence|done].
Qed.

(** ** What the static side does not serve *)

Lemma up_path_no_dotdot (segs : list str) : up_path segs = false -> [dot; dot] ∉ segs.
Proof.
  intros Hup Hin. apply not_true_iff_false in Hup. apply Hup.
  unfold up_path. apply existsb_exists. exists [dot; dot].
  split; [by apply list_elem_of_In|reflexivity].
Qed.

Lemma serveStatic_inside_root (P : platform) (e : ereq) (tree1 tree2 : list str -> option entry)
    (up : backend) :
  (forall segs, [dot; dot] ∉ segs -> tree1 segs = tree2 segs) ->
  serveStatic P e {| fs := tree1; upstream := up |} =
  serveStatic P e {| fs := tree2; upstream := up |}.
Proof.
  intros Hagree. unfold serveStatic. cbv zeta. cbn [fs].
  destruct (negb _); [done|].
  destruct (decode P _) as [p|]; [|done].
  destruct (bool_decide (0 ∈ p)); [done|].
  destruct (up_path _) eqn:Hup; [done|].
  apply up_path_no_dotdot in Hup.
  destruct (dotfile_ignored _ _); [done|].
  match goal with
  | |- context [if endsWith_slash ?x then _ else _] => destruct (endsWith_slash x)
  end.
  - rewrite Hagree; [done|].
    intros [Hin|Hin]%elem_of_app; [done|].
    by apply list_elem_of_singleton in Hin.
  - by rewrite (Hagree _ Hup).
Qed.

(** The static side looks at the file system only at paths without a
    [..] segment, also after percent decoding: two trees that agree on
    those paths give the same run, so nothing above the static root can be
    served. *)
Theorem static_never_leaves_root (P : platform) (env : gmap (list N) (list N))
    (es : list event) (r : request) (tree1 tree2 : list str -> option entry) (up : backend) :
  (forall segs, [dot; dot] ∉ segs -> tree1 segs = tree2 segs) ->
  ServerJs.run P env (es ++ [Incoming r {| fs := tree1; upstream := up |}]) =
  ServerJs.run P env (es ++ [Incoming r {| fs := tree2; upstream := up |}]).
Proof.
  intros Hagree. rewrite !run_snoc.
  destruct (alive (ServerJs.run P env es)) eqn:Ha; [|by rewrite !step_dead].
  rewrite <- !run_snoc, !(turn_incoming P env es r _ Ha). f_equal.
  destruct (under_mount (lit "/api") (pathname r)) eqn:Hu.
  - pose proof (layer_match_under (lit "/api") (pathname r)) as Hm.
    rewrite Hu in Hm. destruct Hm as [removed Hm]; [done|].
    unfold route, ServerJs.stack; cbn [mount handle]. rewrite Hm.
    unfold createProxyMiddleware; cbn [upstream]. by destruct up.
  - rewrite !(route_not_under_api P r _ Hu).
    by rewrite (serveStatic_inside_root P _ tree1 tree2 up Hagree).
Qed.

Lemma static_never_leaves_root_witness :
  ServerJs.run Sample.platform ∅
    ([Bound] ++ [Incoming (Sample.get "/../secret" "")
                   {| fs := fun segs => if bool_decide ([dot; dot] ∈ segs)
                                        then Some (File (lit "secret")) else Sample.tree segs;
                      upstream := Up Sample.ok |}]) =
  ServerJs.run Sample.platform ∅
    ([Bound] ++ [Incoming (Sample.get "/../secret" "")
                   {| fs := Sample.tree; upstream := Up Sample.ok |}]).
Proof.
  apply (static_never_leaves_root Sample.platform ∅ [Bound] (Sample.get "/../secret" "")).
  intros segs Hsegs. by rewrite bool_decide_eq_false_2.
Defined.

Lemma normalizeString_keeps (segs rest res : list str) :
  Forall (fun s => s <> [] /\ s <> [dot] /\ s <> [dot; dot]) segs ->
  normalizeString (segs ++ rest) res = normalizeString rest (reverse segs ++ res).
Proof.
  intros Hall. revert res. induction Hall as [|s segs (H0 & H1 & H2) Hall IH]; intros res; [done|].
  cbn [app normalizeString].
  rewrite !bool_decide_eq_false_2 by done. cbn [orb].
  by rewrite IH, reverse_cons, <- app_assoc.
Qed.

Lemma dot_name_spec (s : str) :
  dot_name s = true ->
  (exists d t, s = dot :: d :: t) /\ s <> [dot; dot] /\
  (forall x, x ∈ [slash; backslash; percent; 0] -> x ∉ s).
Proof.
  unfold dot_name. destruct s as [|c [|d t]]; [done..|].
  rewrite !andb_true_iff, negb_true_iff, bool_decide_eq_false, forallb_forall.
  intros [[Hc%N.eqb_eq Hne] Hall]. subst c. split; [eauto|]. split; [done|].
  intros x Hx Hin. by apply list_elem_of_In, Hall, negb_true_iff, bool_decide_eq_false in Hin.
Qed.

Lemma up_scan_dot_name (s : str) : dot_name s = true -> up_scan true s = false.
Proof.
  intros Hs. destruct (dot_name_spec s Hs) as ((d & t & ->) & Hne & Hchars).
  assert (Hb : backslash ∉ dot :: d :: t) by (apply Hchars; repeat constructor).
  apply not_elem_of_cons in Hb as [_ Hb].
  change (up_scan true (dot :: d :: t))
    with ((d =? dot) && match t with
                        | [] => true
                        | e :: _ => e =? backslash
                        end
          || up_scan false (d :: t)).
  rewrite (up_scan_plain false (d :: t)) by done. rewrite orb_false_r.
  destruct (d =? dot) eqn:Ed; [|done]. apply N.eqb_eq in Ed as ->.
  destruct t as [|x t]; [done|].
  apply not_elem_of_cons in Hb as [_ Hb]. apply not_elem_of_cons in Hb as [Hx _].
  cbn [andb]. apply N.eqb_neq. congruence.
Qed.

(** A path whose last segment is a dotfile is not served, whatever the
    method and whatever the file system holds there: a request for
    [/.env] gets the 404 of finalhandler, although the static root is the
    directory of the program. *)
Theorem dotfiles_not_served (P : platform) (env : gmap (list N) (list N))
    (es : list event) (r : request) (w : world) (segs : list str) (name : str) :
  alive (ServerJs.run P env es) = true ->
  under_mount (lit "/api") (pathname r) = false ->
  forallb plain_segment segs = true ->
  dot_name name = true ->
  pathname r = path_of (segs ++ [name]) ->
  trace (ServerJs.run P env (es ++ [Incoming r w])) =
    trace (ServerJs.run P env es) ++ [Respond (finalhandler P r)].
Proof.
  intros Ha Hu Hplain Hname Hpath.
  rewrite (turn_incoming P env es r w Ha), (route_not_under_api P r w Hu). cbn [log_more trace].
  do 2 f_equal.
  assert (serveStatic P {| raw := r; path := pathname r; baseUrl := [] |} w = Next) as ->; [|done].
  destruct (plain_segments_spec segs Hplain) as (Hall & Hchars & Hup & _).
  destruct (dot_name_spec name Hname) as ((d & t & Ename) & Hne & Hnchars).
  assert (Hpo : path_of (segs ++ [name]) = path_of segs ++ slash :: name).
  { unfold path_of. rewrite flat_map_app. cbn. by rewrite app_nil_r. }
  assert (Hends : endsWith_slash (path_of (segs ++ [name])) = false).
  { rewrite Hpo. unfold endsWith_slash. rewrite last_app.
    destruct (exists_last (l := name)) as (init & z & E); [by rewrite Ename|].
    rewrite E. change (slash :: init ++ [z]) with ((slash :: init) ++ [z]).
    rewrite last_snoc. apply N.eqb_neq. intros ->.
    apply (Hnchars slash); [repeat constructor|]. rewrite E.
    apply elem_of_app. right. apply list_elem_of_here. }
  assert (Hin : forall x, x ∈ [backslash; percent; 0] -> x ∉ path_of (segs ++ [name])).
  { intros x Hx. rewrite Hpo. intros [Hin|Hin]%elem_of_app.
    - apply (Hchars x Hx [] (or_introl eq_refl)). by rewrite app_nil_r.
    - apply elem_of_cons in Hin as [->|Hin].
      + repeat (apply elem_of_cons in Hx as [Hx|Hx]; [by vm_compute in Hx|]).
        by apply elem_of_nil in Hx.
      + apply (Hnchars x); [|done]. by apply list_elem_of_further. }
  assert (Hsegs : normalizeString (split slash (dot :: slash :: path_of (segs ++ [name]))) []
                  = segs ++ [name]).
  { change (dot :: slash :: path_of (segs ++ [name]))
      with ([dot] ++ slash :: (path_of (segs ++ [name]))).
    rewrite split_segment by (by intros [=]%list_elem_of_singleton).
    pose proof (split_path_of (segs ++ [name]) []) as Hsp. rewrite app_nil_r in Hsp.
    rewrite Hsp; [| |by left|left; by destruct segs].
    2:{ apply Forall_app. split.
        - eapply Forall_impl; [exact Hall|]. by intros ? [_ ?].
        - apply Forall_singleton. apply Hnchars. repeat constructor. }
    cbn [app normalizeString bool_decide].
    rewrite (bool_decide_eq_false_2 ([dot] = [])) by done.
    rewrite (bool_decide_eq_true_2 ([dot] = [dot])) by done.
    rewrite (bool_decide_eq_true_2 (@nil N = [])) by done. cbn [orb].
    rewrite normalizeString_keeps.
    - cbn [normalizeString]. by rewrite app_nil_r, reverse_involutive.
    - apply Forall_app. split.
      + eapply Forall_impl; [exact Hall|].
        intros s [(c & t' & -> & Hc) _]. repeat split; intros [=]; congruence.
      + apply Forall_singleton. rewrite Ename. repeat split; try done.
        rewrite <- Ename. done. }
  unfold serveStatic. cbv zeta. cbn [raw path]. rewrite Hpath.
  destruct (negb _); [done|].
  rewrite Hends. cbn [negb]. rewrite andb_true_r.
  rewrite (bool_decide_eq_false_2 (path_of (segs ++ [name]) = [slash]))
    by (intros E; by rewrite E in Hends).
  unfold decode. rewrite bool_decide_eq_false_2 by (apply Hin; repeat constructor).
  rewrite bool_decide_eq_false_2 by (apply Hin; repeat constructor).
  assert (Hmatch : match path_of (segs ++ [name]) with
                   | [] => []
                   | _ :: _ =>
                       normalizeString (split slash (dot :: slash :: path_of (segs ++ [name]))) []
                   end = segs ++ [name]).
  { rewrite Hpo in *. by destruct (path_of segs). }
  rewrite Hmatch, ?Hends.
  assert (up_path (segs ++ [name]) = false) as ->.
  { unfold up_path in *. rewrite existsb_app, Hup. cbn. by rewrite up_scan_dot_name. }
  assert (dotfile_ignored (segs ++ [name]) false = true) as ->; [|done].
  unfold dotfile_ignored. rewrite existsb_app, last_snoc, Ename. cbn.
  by rewrite orb_true_r.
Qed.

Lemma dotfiles_not_served_witness :
  trace (ServerJs.run Sample.platform ∅
           ([Bound] ++ [Incoming (Sample.get "/.env" "")
                          {| fs := fun _ => Some (File (lit "SECRET=1")); upstream := Up Sample.ok |}])) =
    trace (ServerJs.run Sample.platform ∅ [Bound])
      ++ [Respond (finalhandler Sample.platform (Sample.get "/.env" ""))].
Proof.
  apply (dotfiles_not_served Sample.platform ∅ [Bound] (Sample.get "/.env" "")
           {| fs := fun _ => Some (File (lit "SECRET=1")); upstream := Up Sample.ok |}
           [] (lit ".env")); reflexivity.
Defined.

(** A HEAD request for an existing file gets the status and the content
    type of the GET response, and no body. *)
Theorem static_head_without_body (P : platform) (env : gmap (list N) (list N))
    (es : list event) (r : request) (w : world) (segs : list str) (content : bytes) :
  alive (ServerJs.run P env es) = true ->
  under_mount (lit "/api") (pathname r) = false ->
  method r = lit "HEAD" ->
  conditional r = false ->
  forallb plain_segment segs = true -> segs <> [] ->
  pathname r = path_of segs ->
  fs w segs = Some (File content) ->
  trace (ServerJs.run P env (es ++ [Incoming r w])) =
    trace (ServerJs.run P env es)
      ++ [Respond {| status := 200; content_type := Some (mime_lookup P segs);
                     location := None; payload := [] |}].
Proof.
  intros Ha Hu Hhead Hcond Hplain Hne Hpath Hfile.
  rewrite (turn_incoming P env es r w Ha), (route_not_under_api P r w Hu). cbn [log_more trace].
  rewrite (static_file P r w segs (or_intror Hhead) Hplain Hne Hpath), Hfile.
  unfold send_file. by rewrite Hcond, Hhead.
Qed.

Lemma static_head_without_body_witness :
  trace (ServerJs.run Sample.platform ∅
           ([Bound] ++ [Incoming {| method := lit "HEAD"; pathname := lit "/index.html"; search := [];
                                    headers := []; body := [] |} Sample.running])) =
    trace (ServerJs.run Sample.platform ∅ [Bound])
      ++ [Respond {| status := 200; content_type := Some (lit "application/octet-stream");
                     location := None; payload := [] |}].
Proof.
  apply (static_head_without_body Sample.platform ∅ [Bound]
           {| method := lit "HEAD"; pathname := lit "/index.html"; search := [];
              headers := []; body := [] |} Sample.running [lit "index.html"] (lit "<h1>chat</h1>"));
    try reflexivity.
  discriminate.
Defined.

(** ** The relay of backend output *)

(** However the chunks of the two streams interleave, the log has one
    entry per chunk, in the order of arrival, none dropped and none
    merged; the relay changes nothing else of the process. *)
Theorem relay_keeps_order (P : platform) (env : gmap (list N) (list N))
    (es : list event) (chunks : list (stream * str)) :
  alive (ServerJs.run P env es) = true ->
  children (ServerJs.run P env es) = 1%nat ->
  ServerJs.run P env (es ++ (chunk_event 0 <$> chunks)) =
    log_more (ServerJs.run P env es) (chunk_entry <$> chunks).
Proof.
  intros Ha Hc.
  assert (Hl : listeners (ServerJs.run P env es) = serving).
  { destruct (invariant_run P env es) as (_ & _ & [(_&_&?&_)|[(_&?&_)|(?&_)]]); congruence. }
  induction chunks as [|[st text] chunks IH] using rev_ind.
  - rewrite app_nil_r. unfold log_more. cbn. rewrite app_nil_r.
    by destruct (ServerJs.run P env es).
  - rewrite !fmap_app, app_assoc. cbn [fmap list_fmap]. rewrite run_snoc, IH.
    rewrite (turn_serving P env (log_more (ServerJs.run P env es) (chunk_entry <$> chunks))
               _ Ha Hl Hc).
    unfold log_more. cbn [listeners children trace alive].
    destruct st; cbn [chunk_event chunk_entry fst snd fmap list_fmap];
      by rewrite <- !app_assoc.
Qed.

Lemma relay_keeps_order_witness :
  trace (ServerJs.run Sample.platform ∅
           ([Bound] ++ [StdoutData 0 (lit "one "); StderrData 0 (lit " two"); StdoutData 0 (lit "three")])) =
    trace (ServerJs.run Sample.platform ∅ [Bound])
      ++ [ ConsoleLog (lit "[Python STDOUT]: one");
           ConsoleError (lit "[Python STDERR]: two");
           ConsoleLog (lit "[Python STDOUT]: three") ].
Proof.
  by rewrite (relay_keeps_order Sample.platform ∅ [Bound]
                [(Out, lit "one "); (Err, lit " two"); (Out, lit "three")] eq_refl eq_refl).
Defined.

Lemma trimStart_white (s : str) : forallb isWhiteSpace s = true -> trimStart s = [].
Proof.
  induction s as [|c s IH]; [done|]. cbn [forallb trimStart].
  intros [-> Hs]%andb_prop. by apply IH.
Qed.

(** A chunk of white space only (a bare line break, say) is not dropped:
    it is logged as the prefix alone. *)
Theorem blank_chunk_logs_prefix (P : platform) (env : gmap (list N) (list N))
    (es : list event) (text : str) :
  alive (ServerJs.run P env es) = true ->
  children (ServerJs.run P env es) = 1%nat ->
  forallb isWhiteSpace text = true ->
  trace (ServerJs.run P env (es ++ [StdoutData 0 text])) =
    trace (ServerJs.run P env es) ++ [ConsoleLog (lit "[Python STDOUT]: ")] /\
  trace (ServerJs.run P env (es ++ [StderrData 0 text])) =
    trace (ServerJs.run P env es) ++ [ConsoleError (lit "[Python STDERR]: ")].
Proof.
  intros Ha Hc Hwhite.
  assert (Hl : listeners (ServerJs.run P env es) = serving).
  { destruct (invariant_run P env es) as (_ & _ & [(_&_&?&_)|[(_&?&_)|(?&_)]]); congruence. }
  assert (Htrim : trim text = []).
  { unfold trim, trimEnd. by rewrite (trimStart_white text Hwhite). }
  rewrite !run_snoc, !(turn_serving P env _ _ Ha Hl Hc). cbn [log_more trace].
  by rewrite Htrim, !app_nil_r.
Qed.

Lemma blank_chunk_logs_prefix_witness :
  trace (ServerJs.run Sample.platform ∅ ([Bound] ++ [StdoutData 0 [LF]])) =
    trace (ServerJs.run Sample.platform ∅ [Bound]) ++ [ConsoleLog (lit "[Python STDOUT]: ")].
Proof.
  apply (blank_chunk_logs_prefix Sample.platform ∅ [Bound] [LF] eq_refl eq_refl eq_refl).
Defined.
